(** * Rate Limiter API: the Python client and the engine contract it implies

    Part one ([Module Client]) is a shallow embedding of
    [api-server/examples/python-client.py]: the [RateLimiterClient] class, its
    constructor and its eleven request methods.  A method is a program over a
    single effect, sending one HTTP request through the [requests] session,
    threaded through the client object it runs on.

    Part two ([Module Engine]) models the token-bucket engine behind the
    endpoints.  That engine is not part of the client's source file; it is
    written down from the specification's component design. *)

From Stdlib Require Import Ascii String ZArith QArith Qminmax Qround Lia Lqa.
From stdpp Require Import gmap strings list.

Set Warnings "-register-all".

Open Scope Z_scope.

(* ===================================================================== *)
(** ** Strings: [str.rstrip] *)
(* ===================================================================== *)

Module Str.

(** Python's [s.rstrip(c)] for a one-character argument: every trailing
    occurrence of [c] is removed.  A string is its sequence of bytes; the
    byte of ['/'] never occurs inside a multi-byte UTF-8 sequence, so
    stripping bytes and stripping code points agree. *)
Fixpoint rstrip (c : ascii) (s : string) : string :=
  match s with
  | EmptyString => EmptyString
  | String a s' =>
      match rstrip c s' with
      | EmptyString => if Ascii.eqb a c then EmptyString else String a EmptyString
      | r => String a r
      end
  end.

(** [n] copies of the character [c]: Python's [c * n]. *)
Fixpoint replicate (n : nat) (c : ascii) : string :=
  match n with
  | O => EmptyString
  | S n' => String c (replicate n' c)
  end.

(** [s.split(c)]: the pieces of [s] between occurrences of [c]. *)
Fixpoint split (c : ascii) (s : string) : list string :=
  match s with
  | EmptyString => [EmptyString]
  | String a s' =>
      if Ascii.eqb a c then EmptyString :: split c s'
      else match split c s' with
           | [] => [String a EmptyString]
           | w :: ws => String a w :: ws
           end
  end.

(** [c in s]. *)
Fixpoint contains (c : ascii) (s : string) : bool :=
  match s with
  | EmptyString => false
  | String a s' => Ascii.eqb a c || contains c s'
  end.

(** [s.endswith(c)]. *)
Fixpoint endswith (c : ascii) (s : string) : bool :=
  match s with
  | EmptyString => false
  | String a EmptyString => Ascii.eqb a c
  | String _ s' => endswith c s'
  end.

End Str.

(* ===================================================================== *)
(** ** The client *)
(* ===================================================================== *)

Module Client.

(** JSON values, as far as the client builds and receives them.  An object
    keeps its members in the order the dict literal lists them. *)
Inductive Json : Type :=
| JNull
| JBool (b : bool)
| JInt (n : Z)
| JStr (s : string)
| JArr (items : list Json)
| JObj (members : list (string * Json)).

(** [d.get(name)] on a JSON object. *)
Fixpoint member (name : string) (members : list (string * Json)) : option Json :=
  match members with
  | [] => None
  | (k, v) :: rest => if String.eqb k name then Some v else member name rest
  end.

Definition field (name : string) (j : Json) : option Json :=
  match j with
  | JObj members => member name members
  | _ => None
  end.

Inductive Verb := GET | POST | DELETE.

(** A request as the client hands it to [Session.get/post/delete(url,
    json=...)]: the verb, the URL string, the session's headers and the
    [json=] argument ([None] when the call passes none; the client never
    passes [data=]).  What the library does to the URL afterwards is not the
    client's code. *)
Record Request := mkRequest {
  verb : Verb;
  url : string;
  req_headers : gmap string string;
  json : option Json
}.

(** A response; [content] is its body decoded as JSON, [None] when the body
    is not JSON. *)
Record Response := mkResponse {
  status_code : Z;
  content : option Json
}.

(** What the transport hands back: a response, or nothing when [requests]
    raises instead (connection refused, timeout, ...). *)
Inductive Reply :=
| Answer (r : Response)
| NoAnswer.

Inductive Exn :=
| RequestException
| JSONDecodeError.

Inductive Result (A : Type) : Type :=
| Ok (a : A)
| Raised (e : Exn).
Arguments Ok {A} a.
Arguments Raised {A} e.

(** Programs over the one effect the client has. *)
Inductive Prog (A : Type) : Type :=
| Return (a : A)
| Perform (r : Request) (k : Reply -> Prog A).
Arguments Return {A} a.
Arguments Perform {A} r k.

(** [requests.Session]: the part of it the client touches. *)
Record Session := mkSession {
  headers : gmap string string
}.

(** [session.headers.update(d)] for a one-entry dict. *)
Definition headers_update (s : Session) (name value : string) : Session :=
  {| headers := <[name := value]> (headers s) |}.

Record RateLimiterClient := mkClient {
  base_url : string;
  session : Session
}.

(** A method body: runs on [self], may raise, may leave [self] changed. *)
Definition M (A : Type) : Type :=
  RateLimiterClient -> Prog (Result A * RateLimiterClient).

Definition ret {A} (a : A) : M A := fun self => Return (Ok a, self).

Definition raise {A} (e : Exn) : M A := fun self => Return (Raised e, self).

Fixpoint prog_bind {A B} (p : Prog A) (f : A -> Prog B) : Prog B :=
  match p with
  | Return a => f a
  | Perform r k => Perform r (fun reply => prog_bind (k reply) f)
  end.

Definition bind {A B} (m : M A) (f : A -> M B) : M B :=
  fun self =>
    prog_bind (m self) (fun '(res, self') =>
      match res with
      | Ok a => f a self'
      | Raised e => Return (Raised e, self')
      end).

#[export] Instance M_ret : MRet M := @ret.
#[export] Instance M_bind : MBind M := fun A B f m => bind m f.

(** Reading an attribute of [self]. *)
Definition attr {A} (get : RateLimiterClient -> A) : M A :=
  fun self => Return (Ok (get self), self).

(** [session.request(verb, url, json=body)]. *)
Definition session_request (s : Session) (v : Verb) (u : string)
    (body : option Json) : M Response :=
  fun self =>
    Perform {| verb := v; url := u; req_headers := headers s; json := body |}
      (fun reply =>
         match reply with
         | Answer r => Return (Ok r, self)
         | NoAnswer => Return (Raised RequestException, self)
         end).

Definition session_get (s : Session) (u : string) : M Response :=
  session_request s GET u None.

Definition session_post (s : Session) (u : string) (body : option Json) : M Response :=
  session_request s POST u body.

Definition session_delete (s : Session) (u : string) : M Response :=
  session_request s DELETE u None.

(** [response.json()]. *)
Definition response_json (r : Response) : M Json :=
  match content r with
  | Some j => ret j
  | None => raise JSONDecodeError
  end.

(** [__init__(self, base_url="http://localhost:8080")].  [fresh] is the
    object [requests.Session()] returns. *)
Definition init (fresh : Session) (base_url : option string) : RateLimiterClient :=
  let base_url := default "http://localhost:8080" base_url in
  {| base_url := Str.rstrip "/" base_url;
     session := headers_update fresh "Content-Type" "application/json" |}.

Definition health_check : M Json :=
  base ← attr base_url;
  s ← attr session;
  response ← session_get s (base +:+ "/api/health");
  response_json response.

Definition get_metrics : M Json :=
  base ← attr base_url;
  s ← attr session;
  response ← session_get s (base +:+ "/api/metrics");
  response_json response.

(** [check_rate_limit(self, key, capacity=100, refill_rate=10)]: [None]
    stands for an omitted keyword argument. *)
Definition check_rate_limit (key : string) (capacity refill_rate : option Z) : M Json :=
  let capacity := default 100 capacity in
  let refill_rate := default 10 refill_rate in
  base ← attr base_url;
  s ← attr session;
  response ← session_post s (base +:+ "/api/v1/limiter/check")
                (Some (JObj [("key", JStr key);
                             ("capacity", JInt capacity);
                             ("refillRate", JInt refill_rate)]));
  response_json response.

Definition apply_penalty (key : string) (points : Z) : M Json :=
  base ← attr base_url;
  s ← attr session;
  response ← session_post s (base +:+ "/api/v1/limiter/penalty")
                (Some (JObj [("key", JStr key); ("points", JInt points)]));
  response_json response.

Definition apply_reward (key : string) (points : Z) : M Json :=
  base ← attr base_url;
  s ← attr session;
  response ← session_post s (base +:+ "/api/v1/limiter/reward")
                (Some (JObj [("key", JStr key); ("points", JInt points)]));
  response_json response.

Definition block_key (key : string) (duration : Z) : M Json :=
  base ← attr base_url;
  s ← attr session;
  response ← session_post s (base +:+ "/api/v1/limiter/block")
                (Some (JObj [("key", JStr key); ("duration", JInt duration)]));
  response_json response.

Definition unblock_key (key : string) : M Json :=
  base ← attr base_url;
  s ← attr session;
  response ← session_post s (base +:+ "/api/v1/limiter/unblock")
                (Some (JObj [("key", JStr key)]));
  response_json response.

Definition get_status (key : string) : M Json :=
  base ← attr base_url;
  s ← attr session;
  response ← session_get s (base +:+ "/api/v1/limiter/status/" +:+ key);
  response_json response.

Definition reset_limiter (key : string) : M Json :=
  base ← attr base_url;
  s ← attr session;
  response ← session_post s (base +:+ "/api/v1/limiter/reset/" +:+ key) None;
  response_json response.

Definition delete_limiter (key : string) : M Json :=
  base ← attr base_url;
  s ← attr session;
  response ← session_delete s (base +:+ "/api/v1/limiter/" +:+ key);
  response_json response.

Definition list_limiters : M Json :=
  base ← attr base_url;
  s ← attr session;
  response ← session_get s (base +:+ "/api/v1/limiters");
  response_json response.

(** *** Calls: the public methods with their actual parameters *)

(** One constructor per public method of the class, with the parameters of
    its signature after [self], in order. *)
Inductive Call : Type :=
| HealthCheck
| GetMetrics
| CheckRateLimit (key : string) (capacity refill_rate : option Z)
| ApplyPenalty (key : string) (points : Z)
| ApplyReward (key : string) (points : Z)
| BlockKey (key : string) (duration : Z)
| UnblockKey (key : string)
| GetStatus (key : string)
| ResetLimiter (key : string)
| DeleteLimiter (key : string)
| ListLimiters.

Definition invoke (c : Call) : M Json :=
  match c with
  | HealthCheck => health_check
  | GetMetrics => get_metrics
  | CheckRateLimit key capacity refill_rate => check_rate_limit key capacity refill_rate
  | ApplyPenalty key points => apply_penalty key points
  | ApplyReward key points => apply_reward key points
  | BlockKey key duration => block_key key duration
  | UnblockKey key => unblock_key key
  | GetStatus key => get_status key
  | ResetLimiter key => reset_limiter key
  | DeleteLimiter key => delete_limiter key
  | ListLimiters => list_limiters
  end.

(** An actual parameter: a string, an integer, or a keyword parameter left
    to its default. *)
Inductive Arg :=
| AStr (s : string)
| AInt (n : Z)
| AOmitted.

Definition opt_arg (o : option Z) : Arg :=
  match o with
  | Some n => AInt n
  | None => AOmitted
  end.

(** The parameter list of each method as its [def] line declares it, bound
    to the call's values. *)
Definition arguments (c : Call) : list (string * Arg) :=
  match c with
  | HealthCheck => []
  | GetMetrics => []
  | CheckRateLimit key capacity refill_rate =>
      [("key", AStr key); ("capacity", opt_arg capacity);
       ("refill_rate", opt_arg refill_rate)]
  | ApplyPenalty key points => [("key", AStr key); ("points", AInt points)]
  | ApplyReward key points => [("key", AStr key); ("points", AInt points)]
  | BlockKey key duration => [("key", AStr key); ("duration", AInt duration)]
  | UnblockKey key => [("key", AStr key)]
  | GetStatus key => [("key", AStr key)]
  | ResetLimiter key => [("key", AStr key)]
  | DeleteLimiter key => [("key", AStr key)]
  | ListLimiters => []
  end.

(** The operation of the service a method stands for. *)
Inductive OpName :=
| check | penalty | reward | block | unblock | status | reset | delete
| list_all | health | metrics.

Definition operation (c : Call) : OpName :=
  match c with
  | HealthCheck => health
  | GetMetrics => metrics
  | CheckRateLimit _ _ _ => check
  | ApplyPenalty _ _ => penalty
  | ApplyReward _ _ => reward
  | BlockKey _ _ => block
  | UnblockKey _ => unblock
  | GetStatus _ => status
  | ResetLimiter _ => reset
  | DeleteLimiter _ => delete
  | ListLimiters => list_all
  end.

Definition limiter_operations : list OpName :=
  [check; penalty; reward; block; unblock; status; reset; delete; list_all].

Definition process_queries : list OpName := [health; metrics].

#[export] Instance OpName_eq_dec : EqDecision OpName.
Proof. solve_decision. Defined.

(** *** Running a method against a network *)

(** The network as one client sees it: the reply to a request, given the
    requests sent before it. *)
Definition Network : Type := list Request -> Request -> Reply.

Fixpoint run {A} (net : Network) (log : list Request) (p : Prog A)
    : list Request * A :=
  match p with
  | Return a => (log, a)
  | Perform r k => run net (log ++ [r]) (k (net log r))
  end.

(** What calling method [m] on [self] comes to: the requests that went
    out, what the method returned or raised, and [self] afterwards. *)
Record Exchange (A : Type) := mkExchange {
  sent : list Request;
  result : Result A;
  self_after : RateLimiterClient
}.
Arguments mkExchange {A} _ _ _.
Arguments sent {A} _.
Arguments result {A} _.
Arguments self_after {A} _.

Definition call {A} (net : Network) (self : RateLimiterClient) (m : M A) : Exchange A :=
  let '(log, (res, self')) := run net [] (m self) in
  {| sent := log; result := res; self_after := self' |}.

(** What a method makes of the network's reply. *)
Definition reply_json (r : Reply) : Result Json :=
  match r with
  | Answer resp =>
      match content resp with
      | Some j => Ok j
      | None => Raised JSONDecodeError
      end
  | NoAnswer => Raised RequestException
  end.

(** The URL prefix shared by the rate-limiter endpoints. *)
Definition limiter_root (self : RateLimiterClient) : string :=
  base_url self +:+ "/api/v1/limiter".

(** The path segments of a URL: its pieces between slashes. *)
Definition segments (u : string) : list string := Str.split "/" u.

(** The request each call puts on the wire, tabulated from the method
    bodies; [call_invoke] below proves the table against the methods. *)
Definition request_of (self : RateLimiterClient) (c : Call) : Request :=
  let post path body :=
    mkRequest POST (base_url self +:+ path) (headers (session self)) body in
  let get path :=
    mkRequest GET (base_url self +:+ path) (headers (session self)) None in
  match c with
  | HealthCheck => get "/api/health"
  | GetMetrics => get "/api/metrics"
  | CheckRateLimit key capacity refill_rate =>
      post "/api/v1/limiter/check"
        (Some (JObj [("key", JStr key);
                     ("capacity", JInt (default 100 capacity));
                     ("refillRate", JInt (default 10 refill_rate))]))
  | ApplyPenalty key points =>
      post "/api/v1/limiter/penalty"
        (Some (JObj [("key", JStr key); ("points", JInt points)]))
  | ApplyReward key points =>
      post "/api/v1/limiter/reward"
        (Some (JObj [("key", JStr key); ("points", JInt points)]))
  | BlockKey key duration =>
      post "/api/v1/limiter/block"
        (Some (JObj [("key", JStr key); ("duration", JInt duration)]))
  | UnblockKey key =>
      post "/api/v1/limiter/unblock" (Some (JObj [("key", JStr key)]))
  | GetStatus key => get ("/api/v1/limiter/status/" +:+ key)
  | ResetLimiter key => post ("/api/v1/limiter/reset/" +:+ key) None
  | DeleteLimiter key =>
      mkRequest DELETE (base_url self +:+ "/api/v1/limiter/" +:+ key)
        (headers (session self)) None
  | ListLimiters => get "/api/v1/limiters"
  end.

(** The four calls that pass numbers, each paired with the request that
    carries those numbers as they were passed. *)
Definition numeric_calls (self : RateLimiterClient) (key : string)
    (capacity refill_rate points duration : Z) : list (Call * Request) :=
  let post path members :=
    mkRequest POST (base_url self +:+ path) (headers (session self))
      (Some (JObj members)) in
  [ (CheckRateLimit key (Some capacity) (Some refill_rate),
     post "/api/v1/limiter/check"
       [("key", JStr key); ("capacity", JInt capacity);
        ("refillRate", JInt refill_rate)]);
    (ApplyPenalty key points,
     post "/api/v1/limiter/penalty" [("key", JStr key); ("points", JInt points)]);
    (ApplyReward key points,
     post "/api/v1/limiter/reward" [("key", JStr key); ("points", JInt points)]);
    (BlockKey key duration,
     post "/api/v1/limiter/block" [("key", JStr key); ("duration", JInt duration)]) ].

(** The client the demo at the end of the source file builds,
    [RateLimiterClient("http://localhost:8080")], on a session that starts
    with no headers. *)
Definition demo_client : RateLimiterClient :=
  init (mkSession ∅) (Some "http://localhost:8080").

(** A server that answers every request with a 400 and an error body. *)
Definition rejecting : Network :=
  fun _ _ => Answer (mkResponse 400 (Some (JObj [("error", JStr "invalid argument")]))).

End Client.

(* ===================================================================== *)
(** ** Reading the wire back *)
(* ===================================================================== *)

Module Wire.

Import Client.

(** A server that answers every request with the status [code] and the JSON
    body [body]. *)
Definition answering (code : Z) (body : Json) : Network :=
  fun _ _ => Answer (mkResponse code (Some body)).

(** A call with the keyword defaults of its signature written out. *)
Definition explicit (c : Call) : Call :=
  match c with
  | CheckRateLimit key capacity refill_rate =>
      CheckRateLimit key (Some (default 100 capacity)) (Some (default 10 refill_rate))
  | _ => c
  end.

(** The verb and the route each operation is served at, as the method that
    stands for it writes them. *)
Definition route (o : OpName) : Verb * string :=
  match o with
  | check => (POST, "/api/v1/limiter/check")
  | penalty => (POST, "/api/v1/limiter/penalty")
  | reward => (POST, "/api/v1/limiter/reward")
  | block => (POST, "/api/v1/limiter/block")
  | unblock => (POST, "/api/v1/limiter/unblock")
  | status => (GET, "/api/v1/limiter/status/")
  | reset => (POST, "/api/v1/limiter/reset/")
  | Client.delete => (DELETE, "/api/v1/limiter/")
  | list_all => (GET, "/api/v1/limiters")
  | health => (GET, "/api/health")
  | metrics => (GET, "/api/metrics")
  end.

(** The operations whose key follows the route in the URL. *)
Definition in_path (o : OpName) : bool :=
  match o with
  | status | reset | Client.delete => true
  | _ => false
  end.

(** What a call appends to its route: its first argument when the
    operation takes its key in the path, nothing otherwise. *)
Definition path_tail (c : Call) : string :=
  match arguments c with
  | (_, AStr key) :: _ => if in_path (operation c) then key else ""
  | _ => ""
  end.

End Wire.

(* ===================================================================== *)
(** ** The example script under [if __name__ == "__main__"]

    The script builds one client and walks through thirteen numbered steps,
    printing what each response holds.  Its effects are the lines it
    prints, the pauses it takes and the requests its client sends.  It
    catches no exception, so the first one raised ends it.

    A printed line is kept as its pieces, fixed text and values to be
    rendered; how Python renders a value as text is not modelled, and the
    console is taken to accept every line.  A decoded JSON number is a
    [JInt]; the script treats a fractional number in every respect as it
    treats an integer. *)
(* ===================================================================== *)

Module Script.

Import Client.

(** The exception classes that can end the script: the client's own, and
    those Python raises when a response does not have the shape read. *)
Inductive Error :=
| ClientError (e : Exn)
| KeyError
| TypeError
| AttributeError
| ValueError
| OverflowError.

Inductive Try (A : Type) : Type :=
| Got (a : A)
| Threw (e : Error).
Arguments Got {A} a.
Arguments Threw {A} e.

(** [j[name]] for a string [name]: the member of a dict, [KeyError] when
    the dict has none; any other value does not take a string index. *)
Definition subscript (j : Json) (name : string) : Try Json :=
  match j with
  | JObj members =>
      match member name members with
      | Some v => Got v
      | None => Threw KeyError
      end
  | _ => Threw TypeError
  end.

(** [j.get(name, d)]: only a dict has the method. *)
Definition get_or (j : Json) (name : string) (d : Json) : Try Json :=
  match j with
  | JObj members => Got (default d (member name members))
  | _ => Threw AttributeError
  end.

(** Truth value of a decoded JSON value, as [if] tests it. *)
Definition truthy (j : Json) : bool :=
  match j with
  | JNull => false
  | JBool b => b
  | JInt n => negb (n =? 0)
  | JStr s => negb (String.eqb s "")
  | JArr items => negb (bool_decide (length items = 0%nat))
  | JObj members => negb (bool_decide (length members = 0%nat))
  end.

(** A byte [10xxxxxx] continues a UTF-8 character. *)
Definition is_continuation (a : ascii) : bool :=
  match a with
  | Ascii _ _ _ _ _ _ b6 b7 => b7 && negb b6
  end.

(** The characters of a string, each with its continuation bytes. *)
Fixpoint chars (s : string) : list string :=
  match s with
  | EmptyString => []
  | String a s' =>
      match s' with
      | String b _ =>
          if is_continuation b then
            match chars s' with
            | g :: gs => String a g :: gs
            | [] => [String a EmptyString]
            end
          else String a EmptyString :: chars s'
      | EmptyString => [String a EmptyString]
      end
  end.

Fixpoint join (pieces : list string) : string :=
  match pieces with
  | [] => EmptyString
  | p :: ps => p +:+ join ps
  end.

(** [j[:5]]: the first five items of a list or characters of a string.  A
    dict takes no slice: the lookup fails with [TypeError] where slices are
    unhashable and with [KeyError] where they are hashable (Python 3.12 and
    later).  Numbers, booleans and [None] are not subscriptable. *)
Definition first5 (slices_hashable : bool) (j : Json) : Try Json :=
  match j with
  | JArr items => Got (JArr (take 5 items))
  | JStr s => Got (JStr (join (take 5 (chars s))))
  | JObj _ => Threw (if slices_hashable then KeyError else TypeError)
  | _ => Threw TypeError
  end.

(** What [for x in j] runs over: the items of a list, the characters of a
    string, the keys of a dict; other values are not iterable. *)
Definition iterate (j : Json) : Try (list Json) :=
  match j with
  | JArr items => Got items
  | JStr s => Got (JStr <$> chars s)
  | JObj members => Got ((fun kv => JStr (fst kv)) <$> members)
  | _ => Threw TypeError
  end.

(** A piece of a printed line: fixed text, a value rendered by [str], or
    a number rendered with one decimal ([:.1f]). *)
Inductive Fragment :=
| Text (s : string)
| Shown (v : Json)
| Fixed1 (v : Json).

(** The least magnitude of an integer that does not fit a float: the
    half-way point between the largest float, [2^1024 - 2^971], and
    [2^1024], which rounds up. *)
Definition float_limit : Z := 2 ^ 1024 - 2 ^ 970.

(** [f"{j:.1f}"]: booleans take the format, and integers that fit a float;
    a larger integer raises [OverflowError] ("int too large to convert to
    float"), a string [ValueError], [None], lists and dicts [TypeError]. *)
Definition fixed1 (j : Json) : Try Fragment :=
  match j with
  | JInt n => if Z.abs n <? float_limit then Got (Fixed1 j) else Threw OverflowError
  | JBool _ => Got (Fixed1 j)
  | JStr _ => Threw ValueError
  | _ => Threw TypeError
  end.

Inductive Effect :=
| Printed (line : list Fragment)
| Slept (seconds : Q)
| Requested (r : Request).

(** Scripts: straight-line Python over [print], [time.sleep] and the
    methods of the one client. *)
Inductive Script (A : Type) : Type :=
| Fin (a : A)
| Throw (e : Error)
| Print (line : list Fragment) (k : Script A)
| Sleep (seconds : Q) (k : Script A)
| Method (m : M Json) (k : Json -> Script A).
Arguments Fin {A} a.
Arguments Throw {A} e.
Arguments Print {A} line k.
Arguments Sleep {A} seconds k.
Arguments Method {A} m k.

Fixpoint bind {A B} (s : Script A) (f : A -> Script B) : Script B :=
  match s with
  | Fin a => f a
  | Throw e => Throw e
  | Print line k => Print line (bind k f)
  | Sleep q k => Sleep q (bind k f)
  | Method m k => Method m (fun j => bind (k j) f)
  end.

#[export] Instance Script_ret : MRet Script := @Fin.
#[export] Instance Script_bind : MBind Script := fun A B f s => bind s f.

(** The statements. *)
Definition print (line : list Fragment) : Script unit := Print line (Fin tt).

Definition sleep (seconds : Q) : Script unit := Sleep seconds (Fin tt).

Definition method (m : M Json) : Script Json := Method m Fin.

(** An expression that may raise. *)
Definition attempt {A} (t : Try A) : Script A :=
  match t with
  | Got a => Fin a
  | Threw e => Throw e
  end.

(** [for x in xs: body]. *)
Fixpoint for_each {A} (xs : list A) (body : A -> Script unit) : Script unit :=
  match xs with
  | [] => Fin tt
  | x :: rest => body x ;; for_each rest body
  end.

(** The requests among the effects so far. *)
Fixpoint requests (trace : list Effect) : list Request :=
  match trace with
  | [] => []
  | Requested r :: rest => r :: requests rest
  | _ :: rest => requests rest
  end.

(** A method's program against the network, its requests entering the
    script's trace. *)
Fixpoint perform {A} (net : Network) (trace : list Effect) (p : Prog A)
    : list Effect * A :=
  match p with
  | Return a => (trace, a)
  | Perform r k => perform net (trace ++ [Requested r]) (k (net (requests trace) r))
  end.

(** What a run comes to: the effects in order, how it ended, and the
    client at the end. *)
Record Run (A : Type) := mkRun {
  effects : list Effect;
  outcome : Try A;
  client_after : RateLimiterClient
}.
Arguments mkRun {A} _ _ _.
Arguments effects {A} _.
Arguments outcome {A} _.
Arguments client_after {A} _.

Fixpoint exec {A} (net : Network) (self : RateLimiterClient)
    (trace : list Effect) (s : Script A) : Run A :=
  match s with
  | Fin a => mkRun trace (Got a) self
  | Throw e => mkRun trace (Threw e) self
  | Print line k => exec net self (trace ++ [Printed line]) k
  | Sleep q k => exec net self (trace ++ [Slept q]) k
  | Method m k =>
      let '(trace', (res, self')) := perform net trace (m self) in
      match res with
      | Ok j => exec net self' trace' (k j)
      | Raised e => mkRun trace' (Threw (ClientError e)) self'
      end
  end.

Definition bar : list Fragment := [Text (Str.replicate 60 "=")].

(** The line the script ends on when nothing went wrong. *)
Definition success_line : list Fragment := [Text "Demo completed successfully!"].

(** The body of the script after [client = RateLimiterClient(...)]. *)
Definition demo (slices_hashable : bool) : Script unit :=
  print bar ;;
  print [Text "Rate Limiter API - Python Client Demo"] ;;
  print bar ;;
  print [] ;;
  (* 1. Health check *)
  print [Text "1. Health Check"] ;;
  health ← method health_check;
  v ← attempt (subscript health "status");
  print [Text "Status: "; Shown v] ;;
  v ← attempt (subscript health "activeLimiters");
  print [Text "Active Limiters: "; Shown v] ;;
  print [] ;;
  (* 2. Check rate limit *)
  print [Text "2. Check Rate Limit for user-python-123"] ;;
  result ← method (check_rate_limit "user-python-123" (Some 10) (Some 2));
  v ← attempt (subscript result "allowed");
  print [Text "Allowed: "; Shown v] ;;
  v ← attempt (subscript result "tokens");
  w ← attempt (subscript result "capacity");
  print [Text "Tokens: "; Shown v; Text "/"; Shown w] ;;
  print [] ;;
  (* 3. Get status *)
  print [Text "3. Get Limiter Status"] ;;
  status ← method (get_status "user-python-123");
  v ← attempt (subscript status "key");
  print [Text "Key: "; Shown v] ;;
  v ← attempt (subscript status "tokens");
  print [Text "Tokens: "; Shown v] ;;
  v ← attempt (subscript status "isBlocked");
  print [Text "Blocked: "; Shown v] ;;
  print [] ;;
  (* 4. Apply penalty *)
  print [Text "4. Apply Penalty (Bad Behavior)"] ;;
  penalty ← method (apply_penalty "user-python-123" 3);
  v ← attempt (subscript penalty "penaltyApplied");
  print [Text "Penalty Applied: "; Shown v] ;;
  v ← attempt (subscript penalty "remainingTokens");
  print [Text "Remaining Tokens: "; Shown v] ;;
  print [] ;;
  (* 5. Apply reward *)
  print [Text "5. Apply Reward (Good Behavior)"] ;;
  reward ← method (apply_reward "user-python-123" 2);
  v ← attempt (subscript reward "rewardApplied");
  print [Text "Reward Applied: "; Shown v] ;;
  v ← attempt (subscript reward "remainingTokens");
  print [Text "Remaining Tokens: "; Shown v] ;;
  print [] ;;
  (* 6. Block a key *)
  print [Text "6. Block Spammer"] ;;
  block ← method (block_key "spammer-python-456" 30000);
  v ← attempt (subscript block "blocked");
  print [Text "Blocked: "; Shown v] ;;
  v ← attempt (subscript block "blockedUntil");
  print [Text "Blocked Until: "; Shown v] ;;
  print [] ;;
  (* 7. Try to use blocked key *)
  print [Text "7. Try to Use Blocked Key"] ;;
  blocked_result ← method (check_rate_limit "spammer-python-456" None None);
  v ← attempt (subscript blocked_result "allowed");
  print [Text "Allowed: "; Shown v] ;;
  v ← attempt (get_or blocked_result "reason" (JStr "N/A"));
  print [Text "Reason: "; Shown v] ;;
  print [] ;;
  (* 8. Unblock the key *)
  print [Text "8. Unblock Key"] ;;
  unblock ← method (unblock_key "spammer-python-456");
  v ← attempt (subscript unblock "unblocked");
  print [Text "Unblocked: "; Shown v] ;;
  print [] ;;
  (* 9. Rate limit exhaustion demo *)
  print [Text "9. Rate Limit Exhaustion Demo"] ;;
  print [Text "Making 12 requests with capacity=5..."] ;;
  for_each (seqZ 1 12) (fun i =>
    result ← method (check_rate_limit "demo-python-user" (Some 5) (Some 1));
    a ← attempt (subscript result "allowed");
    let status_emoji := if truthy a then "✓" else "✗" in
    v ← attempt (subscript result "allowed");
    w ← attempt (get_or result "tokens" (JInt 0));
    print [Text "  Request #"; Shown (JInt i); Text ": "; Text status_emoji;
           Text " Allowed="; Shown v; Text ", Tokens="; Shown w] ;;
    sleep (1 # 10)) ;;
  print [] ;;
  (* 10. Reset limiter *)
  print [Text "10. Reset Limiter"] ;;
  reset ← method (reset_limiter "demo-python-user");
  v ← attempt (subscript reset "reset");
  print [Text "Reset: "; Shown v] ;;
  print [] ;;
  (* 11. List all limiters *)
  print [Text "11. List All Limiters"] ;;
  limiters ← method list_limiters;
  v ← attempt (subscript limiters "count");
  print [Text "Total Limiters: "; Shown v] ;;
  all ← attempt (subscript limiters "limiters");
  shown ← attempt (first5 slices_hashable all);
  items ← attempt (iterate shown);
  for_each items (fun limiter =>
    k ← attempt (subscript limiter "key");
    t ← attempt (subscript limiter "tokens");
    c ← attempt (subscript limiter "capacity");
    print [Text "  - "; Shown k; Text ": "; Shown t; Text "/"; Shown c;
           Text " tokens"]) ;;
  print [] ;;
  (* 12. Get metrics *)
  print [Text "12. System Metrics"] ;;
  metrics ← method get_metrics;
  v ← attempt (subscript metrics "totalRequests");
  print [Text "Total Requests: "; Shown v] ;;
  v ← attempt (subscript metrics "allowedRequests");
  print [Text "Allowed: "; Shown v] ;;
  v ← attempt (subscript metrics "blockedRequests");
  print [Text "Blocked: "; Shown v] ;;
  v ← attempt (subscript metrics "successRate");
  f ← attempt (fixed1 v);
  print [Text "Success Rate: "; f; Text "%"] ;;
  print [] ;;
  (* 13. Cleanup *)
  print [Text "13. Cleanup - Delete Test Limiters"] ;;
  for_each ["user-python-123"; "demo-python-user"; "spammer-python-456"] (fun key =>
    method (delete_limiter key) ;;
    print [Text "  Deleted: "; Shown (JStr key)]) ;;
  print [] ;;
  print bar ;;
  print success_line ;;
  print bar.

(** The whole script: the client is built on the session [fresh] the
    library hands out, then the body runs. *)
Definition main (slices_hashable : bool) (fresh : Session) (net : Network) : Run unit :=
  exec net (init fresh (Some "http://localhost:8080")) [] (demo slices_hashable).

(** The calls the script makes when every step goes through, in order. *)
Definition demo_calls : list Call :=
  [ HealthCheck;
    CheckRateLimit "user-python-123" (Some 10) (Some 2);
    GetStatus "user-python-123";
    ApplyPenalty "user-python-123" 3;
    ApplyReward "user-python-123" 2;
    BlockKey "spammer-python-456" 30000;
    CheckRateLimit "spammer-python-456" None None;
    UnblockKey "spammer-python-456" ]
  ++ replicate 12 (CheckRateLimit "demo-python-user" (Some 5) (Some 1))
  ++ [ ResetLimiter "demo-python-user";
       ListLimiters;
       GetMetrics;
       DeleteLimiter "user-python-123";
       DeleteLimiter "demo-python-user";
       DeleteLimiter "spammer-python-456" ].

(** [P] holds of a printed line; pauses and requests pass. *)
Definition printed_ok (P : list Fragment -> Prop) (e : Effect) : Prop :=
  match e with
  | Printed line => P line
  | _ => True
  end.

(** Script [s] keeps to the calls [L] and to lines satisfying [P]: run from
    any point against any network it only adds effects, leaves the client
    as it is, prints only lines satisfying [P], and its requests are those
    of an initial stretch of [L], in order, and of all of [L] when it runs
    to its end. *)
Definition respects {A} (P : list Fragment -> Prop) (L : list Call)
    (s : Script A) : Prop :=
  forall net self trace,
    exists new L',
      effects (exec net self trace s) = trace ++ new /\
      client_after (exec net self trace s) = self /\
      Forall (printed_ok P) new /\
      requests new = request_of self <$> L' /\
      L' `prefix_of` L /\
      (forall a, outcome (exec net self trace s) = Got a -> L' = L).






Definition not_success (line : list Fragment) : Prop := line <> success_line.

(** Script [s] prints the success line when it runs to its end, and when
    it raises it has not printed it. *)
Definition announces {A} (s : Script A) : Prop :=
  forall net self trace,
    exists new,
      effects (exec net self trace s) = trace ++ new /\
      ((exists a, outcome (exec net self trace s) = Got a) ->
       Printed success_line ∈ new) /\
      ((exists e, outcome (exec net self trace s) = Threw e) ->
       Forall (printed_ok not_success) new).


(** Each of the requests [reqs], sent in this order after [log], got JSON
    back. *)
Fixpoint all_answered (net : Network) (log reqs : list Request) : Prop :=
  match reqs with
  | [] => True
  | r :: rest =>
      (exists j, reply_json (net log r) = Ok j) /\
      all_answered net (log ++ [r]) rest
  end.

(** Script [s] stops at the first request that fails: every request it
    sends but the last got JSON back, the last one too unless the script
    ends in an exception of the client, and such an exception is the one of
    its last request. *)
Definition stops_at_failure {A} (s : Script A) : Prop :=
  forall net self trace,
    exists new,
      effects (exec net self trace s) = trace ++ new /\
      client_after (exec net self trace s) = self /\
      all_answered net (requests trace) (removelast (requests new)) /\
      ((forall e, outcome (exec net self trace s) <> Threw (ClientError e)) ->
       all_answered net (requests trace) (requests new)) /\
      (forall e, outcome (exec net self trace s) = Threw (ClientError e) ->
       exists pre req,
         requests new = pre ++ [req] /\
         reply_json (net (requests trace ++ pre) req) = Raised e).

(** An answer with every member the script reads, and the server that
    gives it to every request. *)
Definition full_answer : Json :=
  JObj [ ("status", JStr "ok"); ("activeLimiters", JInt 0);
         ("allowed", JBool true); ("tokens", JInt 9); ("capacity", JInt 10);
         ("key", JStr "user-python-123"); ("isBlocked", JBool false);
         ("penaltyApplied", JInt 3); ("rewardApplied", JInt 2);
         ("remainingTokens", JInt 6);
         ("blocked", JBool true); ("blockedUntil", JInt 30000);
         ("unblocked", JBool true); ("reset", JBool true);
         ("count", JInt 1);
         ("limiters", JArr [JObj [("key", JStr "user-python-123");
                                  ("tokens", JInt 9); ("capacity", JInt 10)]]);
         ("totalRequests", JInt 14); ("allowedRequests", JInt 7);
         ("blockedRequests", JInt 7); ("successRate", JInt 50) ].

Definition obliging : Network := Wire.answering 200 full_answer.

(** A server that is not there: every request fails in the transport. *)
Definition silent : Network := fun _ _ => NoAnswer.

End Script.

(* ===================================================================== *)
(** ** The engine behind the endpoints

    The client's source file holds no engine code.  The four modules below
    write the engine down from the specification's data model (section 3)
    and component design (section 4): times are integer milliseconds on the
    monotonic clock, token counts are rationals. *)
(* ===================================================================== *)

Module Bucket.

(** Modelled from the spec: the per-key state of section 3 (the engine's
    bucket type is not in the client's source).  [blockedUntil] is [None]
    while no block is set. *)
Record t := mk {
  key : string;
  capacity : Z;
  tokens : Q;
  refillRate : Z;
  lastRefillAt : Z;
  blockedUntil : option Z
}.

(** Field updates. *)
Definition set_tokens (q : Q) (b : t) : t :=
  mk (key b) (capacity b) q (refillRate b) (lastRefillAt b) (blockedUntil b).

Definition set_capacity (c : Z) (b : t) : t :=
  mk (key b) c (tokens b) (refillRate b) (lastRefillAt b) (blockedUntil b).

Definition set_refillRate (r : Z) (b : t) : t :=
  mk (key b) (capacity b) (tokens b) r (lastRefillAt b) (blockedUntil b).

Definition set_lastRefillAt (now : Z) (b : t) : t :=
  mk (key b) (capacity b) (tokens b) (refillRate b) now (blockedUntil b).

Definition set_blockedUntil (u : option Z) (b : t) : t :=
  mk (key b) (capacity b) (tokens b) (refillRate b) (lastRefillAt b) u.

(** Modelled from the spec: a bucket as it is created for an unseen key.
    Section 3 gives it the supplied capacity and refill rate; that it starts
    full is the token-bucket reading testable property 2 relies on. *)
Definition create (k : string) (cap rate now : Z) : t :=
  mk k cap (inject_Z cap) rate now None.

(** Modelled from the spec: [refill(now)] of section 4.1,
    [tokens = min(capacity, tokens + elapsed_seconds * refillRate)] and
    [lastRefillAt = now]. *)
Definition refill (now : Z) (b : t) : t :=
  let elapsed := now - lastRefillAt b in
  let elapsed_seconds := (inject_Z elapsed / 1000)%Q in
  set_lastRefillAt now
    (set_tokens
       (Qmin (inject_Z (capacity b))
             (tokens b + elapsed_seconds * inject_Z (refillRate b))%Q) b).

(** Modelled from the spec: "blocked while [now < blockedUntil]". *)
Definition isBlocked (now : Z) (b : t) : bool :=
  match blockedUntil b with
  | Some u => now <? u
  | None => false
  end.

(** Modelled from the spec: step 1 of [check], a supplied capacity or refill
    rate that differs from the stored one replaces it, and a capacity change
    clamps [tokens] down to the new capacity, never up. *)
Definition configure (requestedCapacity requestedRefillRate : option Z) (b : t) : t :=
  let b1 :=
    match requestedCapacity with
    | Some c =>
        if c =? capacity b then b
        else set_tokens (Qmin (tokens b) (inject_Z c)) (set_capacity c b)
    | None => b
    end in
  match requestedRefillRate with
  | Some r => if r =? refillRate b1 then b1 else set_refillRate r b1
  | None => b1
  end.

(** Modelled from the spec: the result of [check],
    [{allowed, tokens, capacity, reason?}], with [tokens] rounded down. *)
Record CheckResult := mkCheckResult {
  allowed : bool;
  remaining : Z;
  ceiling : Z;
  reason : option string
}.

(** Modelled from the spec: [check(now, requestedCapacity?,
    requestedRefillRate?)] of section 4.1, steps 1 to 3. *)
Definition check (now : Z) (requestedCapacity requestedRefillRate : option Z)
    (b : t) : CheckResult * t :=
  let b := configure requestedCapacity requestedRefillRate b in
  if isBlocked now b then
    (mkCheckResult false (Qfloor (tokens b)) (capacity b) (Some "blocked"), b)
  else
    let b := refill now b in
    if Qle_bool 1 (tokens b) then
      let b := set_tokens (tokens b - 1)%Q b in
      (mkCheckResult true (Qfloor (tokens b)) (capacity b) None, b)
    else
      (mkCheckResult false (Qfloor (tokens b)) (capacity b) (Some "rate_limited"), b).

(** Modelled from the spec: [penalty(points)],
    [tokens = max(0, tokens - points)]. *)
Definition penalty (points : Z) (b : t) : t :=
  set_tokens (Qmax 0 (tokens b - inject_Z points))%Q b.

(** Modelled from the spec: [reward(points)],
    [tokens = min(capacity, tokens + points)]. *)
Definition reward (points : Z) (b : t) : t :=
  set_tokens (Qmin (inject_Z (capacity b)) (tokens b + inject_Z points))%Q b.

(** Modelled from the spec: [block(now, durationMs)],
    [blockedUntil = now + durationMs], overwriting any earlier block. *)
Definition block (now durationMs : Z) (b : t) : t :=
  set_blockedUntil (Some (now + durationMs)) b.

(** Modelled from the spec: [unblock()] clears [blockedUntil]. *)
Definition unblock (b : t) : t := set_blockedUntil None b.

(** Modelled from the spec: [reset(now)], [tokens = capacity],
    [blockedUntil] cleared, [lastRefillAt = now]. *)
Definition reset (now : Z) (b : t) : t :=
  set_lastRefillAt now
    (set_blockedUntil None (set_tokens (inject_Z (capacity b)) b)).

(** Modelled from the spec: the status record of [snapshot]. *)
Record Status := mkStatus {
  st_key : string;
  st_tokens : Z;
  st_capacity : Z;
  st_refillRate : Z;
  st_isBlocked : bool;
  st_blockedUntil : option Z
}.

(** Modelled from the spec: [snapshot(now)], a refill followed by the
    report, tokens floored to an integer. *)
Definition snapshot (now : Z) (b : t) : Status * t :=
  let b := refill now b in
  (mkStatus (key b) (Qfloor (tokens b)) (capacity b) (refillRate b)
            (isBlocked now b) (blockedUntil b), b).



(** A count of thousandths of a token, as a token count. *)
Definition millis (m : Z) : Q := (inject_Z m / 1000)%Q.


(** The same without the strictness: the block does not end before [now]. *)
Definition block_not_past (now : Z) (b : t) : Prop :=
  match blockedUntil b with
  | Some u => now <= u
  | None => True
  end.

End Bucket.

Module Registry.

(** Modelled from the spec: the key-to-bucket store of section 4.2. *)
Abbreviation store := (gmap string Bucket.t).

(** Modelled from the spec: [getOrCreate], the existing bucket of [key] or a
    new one with the supplied defaults. *)
Definition getOrCreate (key : string) (defaultCapacity defaultRefillRate now : Z)
    (reg : store) : Bucket.t :=
  match reg !! key with
  | Some b => b
  | None => Bucket.create key defaultCapacity defaultRefillRate now
  end.

(** Modelled from the spec: [get(key)]. *)
Definition get (key : string) (reg : store) : option Bucket.t := reg !! key.

(** Modelled from the spec: [delete(key)], true when a bucket was there. *)
Definition delete (key : string) (reg : store) : bool * store :=
  match reg !! key with
  | Some _ => (true, base.delete key reg)
  | None => (false, reg)
  end.

End Registry.

Module MetricsCollector.

(** Modelled from the spec: the three process-wide counters of section 3. *)
Record counters := mkCounters {
  totalRequests : Z;
  allowedRequests : Z;
  blockedRequests : Z
}.

(** Modelled from the spec: the counters at process start. *)
Definition initial : counters := mkCounters 0 0 0.

(** Modelled from the spec: [recordCheck(allowed)]. *)
Definition recordCheck (allowed : bool) (m : counters) : counters :=
  if allowed
  then mkCounters (totalRequests m + 1) (allowedRequests m + 1) (blockedRequests m)
  else mkCounters (totalRequests m + 1) (allowedRequests m) (blockedRequests m + 1).

End MetricsCollector.

Module Engine.

(** Modelled from the spec: the error kinds of section 7 that are reported
    as failures. *)
Inductive Error :=
| NotFound
| InvalidArgument.

(** Modelled from the spec: the defaults a bucket is created with when the
    caller supplies none (section 3, lifecycle). *)
Record Config := mkConfig {
  defaultCapacity : Z;
  defaultRefillRate : Z
}.

(** Modelled from the spec: the engine owns the registry and the metrics
    collector (section 2). *)
Record state := mkState {
  config : Config;
  registry : gmap string Bucket.t;
  metrics : MetricsCollector.counters
}.

(** Modelled from the spec: the engine at process start, no key tracked. *)
Definition start (cfg : Config) : state :=
  mkState cfg ∅ MetricsCollector.initial.

(** The engine with its registry replaced. *)
Definition with_registry (reg : gmap string Bucket.t) (e : state) : state :=
  mkState (config e) reg (metrics e).

(** Modelled from the spec: the nine operations of the catalog in section
    4.4 with their operation-specific parameters. *)
Inductive Operation :=
| Check (key : string) (requestedCapacity requestedRefillRate : option Z)
| Penalty (key : string) (points : Z)
| Reward (key : string) (points : Z)
| Block (key : string) (durationMs : Z)
| Unblock (key : string)
| QueryStatus (key : string)
| Reset (key : string)
| Delete (key : string)
| List.

(** Modelled from the spec: the result column of the catalog. *)
Inductive Outcome :=
| Checked (r : Bucket.CheckResult)
| PenaltyApplied (remainingTokens : Z)
| RewardApplied (remainingTokens : Z)
| Blocked (blockedUntil : Z)
| Unblocked
| StatusOf (s : Bucket.Status)
| ResetDone
| Deleted (deleted : bool)
| Listed (count : Z) (statuses : list Bucket.Status)
| Failed (e : Error).

(** Modelled from the spec: [InvalidArgument] of section 7, "negative
    capacity/refillRate/points/duration, or non-positive capacity". *)
Definition valid_capacity (c : option Z) : bool :=
  match c with
  | Some c => 0 <? c
  | None => true
  end.

(** Modelled from the spec: the same test for the refill rate. *)
Definition valid_refillRate (r : option Z) : bool :=
  match r with
  | Some r => 0 <=? r
  | None => true
  end.

(** Modelled from the spec: the bucket a create-on-demand operation works
    on, made with the caller's values where supplied and the defaults
    otherwise. *)
Definition resolve (key : string) (cap rate : option Z) (now : Z) (e : state) : Bucket.t :=
  Registry.getOrCreate key
    (default (defaultCapacity (config e)) cap)
    (default (defaultRefillRate (config e)) rate)
    now (registry e).

(** Modelled from the spec: the operation catalog of section 4.4 with the
    failure policy below it.  [check], [penalty], [reward] and [block]
    create the bucket on demand; [unblock], [status] and [reset] signal
    [NotFound] for an unknown key; [delete] reports [deleted=false] for one
    (the catalog's result column and testable property 8).  Only [check]
    touches the counters.  An invalid argument leaves the state as it is.
    A block of zero duration is the "immediate no-op block" of section 4.1:
    it sets no [blockedUntil], which is the reading under which the
    invariant of section 3 ("when set, strictly in the future") stands. *)
Definition step (now : Z) (o : Operation) (e : state) : Outcome * state :=
  match o with
  | Check key cap rate =>
      if valid_capacity cap && valid_refillRate rate then
        let '(r, b) := Bucket.check now cap rate (resolve key cap rate now e) in
        (Checked r,
         mkState (config e) (<[key := b]> (registry e))
            (MetricsCollector.recordCheck (Bucket.allowed r) (metrics e)))
      else (Failed InvalidArgument, e)
  | Penalty key points =>
      if 0 <=? points then
        let b := Bucket.penalty points (resolve key None None now e) in
        (PenaltyApplied (Qfloor (Bucket.tokens b)),
         with_registry (<[key := b]> (registry e)) e)
      else (Failed InvalidArgument, e)
  | Reward key points =>
      if 0 <=? points then
        let b := Bucket.reward points (resolve key None None now e) in
        (RewardApplied (Qfloor (Bucket.tokens b)),
         with_registry (<[key := b]> (registry e)) e)
      else (Failed InvalidArgument, e)
  | Block key durationMs =>
      if 0 <=? durationMs then
        let b0 := resolve key None None now e in
        let b := if durationMs =? 0 then b0 else Bucket.block now durationMs b0 in
        (Blocked (now + durationMs),
         with_registry (<[key := b]> (registry e)) e)
      else (Failed InvalidArgument, e)
  | Unblock key =>
      match Registry.get key (registry e) with
      | Some b =>
          (Unblocked, with_registry (<[key := Bucket.unblock b]> (registry e)) e)
      | None => (Failed NotFound, e)
      end
  | QueryStatus key =>
      match Registry.get key (registry e) with
      | Some b =>
          let '(s, b) := Bucket.snapshot now b in
          (StatusOf s, with_registry (<[key := b]> (registry e)) e)
      | None => (Failed NotFound, e)
      end
  | Reset key =>
      match Registry.get key (registry e) with
      | Some b =>
          (ResetDone, with_registry (<[key := Bucket.reset now b]> (registry e)) e)
      | None => (Failed NotFound, e)
      end
  | Delete key =>
      let '(deleted, reg) := Registry.delete key (registry e) in
      (Deleted deleted, with_registry reg e)
  | List =>
      let reg := (λ b, snd (Bucket.snapshot now b)) <$> registry e in
      let statuses := (λ kb, fst (Bucket.snapshot now (snd kb))) <$> map_to_list (registry e) in
      (Listed (Z.of_nat (length statuses)) statuses, with_registry reg e)
  end.

(** Modelled from the spec: one invocation of the engine, the reading of
    the clock it is served at and the operation (section 2, control flow). *)
Record Event := mkEvent {
  at_ms : Z;
  op : Operation
}.

(** Modelled from the spec: serving invocations one after the other,
    collecting the outcomes. *)
Fixpoint serve (events : list Event) (e : state) : list Outcome * state :=
  match events with
  | [] => ([], e)
  | ev :: rest =>
      let '(out, e1) := step (at_ms ev) (op ev) e in
      let '(outs, e2) := serve rest e1 in
      (out :: outs, e2)
  end.

(** Modelled from the spec: the clock is monotonic (section 2), so no
    event is served at an earlier reading than the one before it, starting
    from [clock]. *)
Fixpoint monotonic (clock : Z) (events : list Event) : Prop :=
  match events with
  | [] => True
  | ev :: rest => clock <= at_ms ev ∧ monotonic (at_ms ev) rest
  end.








(** The bucket of [key] is unblocked, is configured with [cap] and [rate],
    was last refilled at [last] and holds [m] thousandths of a token. *)
Definition holds (key : string) (cap rate last m : Z) (e : state) : Prop :=
  exists b,
    registry e !! key = Some b /\
    Bucket.blockedUntil b = None /\ Bucket.capacity b = cap /\
    Bucket.refillRate b = rate /\ Bucket.lastRefillAt b = last /\
    (Bucket.tokens b == Bucket.millis m)%Q.

(** Six checks of one key with [capacity=5, refillRate=1], one at each of
    the given clock readings. *)
Definition six_checks (key : string) (t1 t2 t3 t4 t5 t6 : Z) : list Event :=
  (fun t => mkEvent t (Check key (Some 5) (Some 1))) <$> [t1; t2; t3; t4; t5; t6].

(** The defaults the client's own signature uses, and three short runs on
    the keys of the client's demo. *)
Definition demo_config : Config := mkConfig 100 10.

Definition demo_run : list Event :=
  [ mkEvent 0 (Check "user-python-123" (Some 10) (Some 2));
    mkEvent 100 (Penalty "user-python-123" 3);
    mkEvent 200 (Block "user-python-123" 0) ].

Definition zero_block_run : list Event :=
  [ mkEvent 1000 (Block "spammer-python-456" 0) ].

Definition exhaustion_run : list Event :=
  six_checks "demo-python-user" 0 100 200 300 400 500.

(** The admission verdict of an outcome of [check]: [allowed] and [reason]. *)
Definition verdict (o : Outcome) : option (bool * option string) :=
  match o with
  | Checked r => Some (Bucket.allowed r, Bucket.reason r)
  | _ => None
  end.

End Engine.

(* ===================================================================== *)
(** ** Facts about strings *)
(* ===================================================================== *)

Section StrFacts.

Variable c : ascii.

Lemma rstrip_replicate n : Str.rstrip c (Str.replicate n c) = EmptyString.
Proof.
  induction n as [|n IH]; simpl; [reflexivity|].
  rewrite IH. now rewrite Ascii.eqb_refl.
Qed.

Lemma rstrip_app_replicate s n :
  Str.rstrip c (s +:+ Str.replicate n c) = Str.rstrip c s.
Proof.
  induction s as [|a s IH]; simpl.
  - apply rstrip_replicate.
  - now rewrite IH.
Qed.

Lemma endswith_cons a b s :
  Str.endswith c (String a (String b s)) = Str.endswith c (String b s).
Proof. reflexivity. Qed.

Lemma rstrip_endswith s : Str.endswith c (Str.rstrip c s) = false.
Proof.
  induction s as [|a s IH]; [reflexivity|].
  cbn [Str.rstrip].
  destruct (Str.rstrip c s) as [|b r] eqn:E.
  - destruct (Ascii.eqb a c) eqn:Ea; [reflexivity|]. simpl. exact Ea.
  - rewrite endswith_cons. exact IH.
Qed.

Lemma rstrip_fixed s : Str.endswith c s = false -> Str.rstrip c s = s.
Proof.
  induction s as [|a s IH]; [reflexivity|].
  destruct s as [|b s].
  - simpl. now intros ->.
  - rewrite endswith_cons. intros H. specialize (IH H).
    cbn [Str.rstrip] in *. rewrite IH. reflexivity.
Qed.

Lemma rstrip_decompose s :
  exists n, s = Str.rstrip c s +:+ Str.replicate n c.
Proof.
  induction s as [|a s [n IH]]; [now exists 0%nat|].
  cbn [Str.rstrip]. destruct (Str.rstrip c s) as [|b r] eqn:E.
  - destruct (Ascii.eqb_spec a c) as [->|Hne].
    + exists (S n). exact (f_equal (String c) IH).
    + exists n. exact (f_equal (String a) IH).
  - exists n. exact (f_equal (String a) IH).
Qed.

Lemma split_nonempty s : Str.split c s <> [].
Proof.
  destruct s as [|a s]; simpl; [discriminate|].
  destruct (Ascii.eqb a c); [discriminate|].
  destruct (Str.split c s); discriminate.
Qed.

Lemma split_app s1 s2 :
  Str.split c (s1 +:+ String c s2) = Str.split c s1 ++ Str.split c s2.
Proof.
  induction s1 as [|a s1 IH]; simpl.
  - now rewrite Ascii.eqb_refl.
  - rewrite IH. destruct (Ascii.eqb a c); [reflexivity|].
    destruct (Str.split c s1) as [|w ws] eqn:E; [|reflexivity].
    now apply split_nonempty in E.
Qed.

Lemma split_single s : Str.split c s = [s] <-> Str.contains c s = false.
Proof.
  induction s as [|a s IH]; simpl; [tauto|].
  destruct (Ascii.eqb a c) eqn:Ea; simpl.
  - split; [|discriminate]. intros H. injection H as H _. discriminate.
  - destruct (Str.split c s) as [|w ws] eqn:E.
    + now apply split_nonempty in E.
    + rewrite <- IH. split.
      * intros H. injection H as -> ->. reflexivity.
      * intros H. injection H as -> ->. reflexivity.
Qed.

End StrFacts.

Example rstrip_demo :
  Str.rstrip "/" "http://localhost:8080//" = "http://localhost:8080".
Proof. reflexivity. Qed.

Example rstrip_only_slashes : Str.rstrip "/" "///" = "".
Proof. reflexivity. Qed.

Example split_demo : Str.split "/" "/api/v1/a/b" = [""; "api"; "v1"; "a"; "b"].
Proof. reflexivity. Qed.

Lemma append_assoc (s1 s2 s3 : string) : (s1 +:+ s2) +:+ s3 = s1 +:+ (s2 +:+ s3).
Proof.
  induction s1 as [|a s1 IH]; [reflexivity|].
  change (String a ((s1 +:+ s2) +:+ s3) = String a (s1 +:+ (s2 +:+ s3))).
  now f_equal.
Qed.

Lemma prefix_append_cancel (b x y : string) :
  String.prefix (b +:+ x) (b +:+ y) = String.prefix x y.
Proof.
  induction b as [|a b IH]; [reflexivity|].
  change (String.prefix (String a (b +:+ x)) (String a (b +:+ y)) = String.prefix x y).
  cbn [String.prefix].
  destruct (ascii_dec a a); [exact IH|congruence].
Qed.

(* ===================================================================== *)
(** ** The client's methods on the wire *)
(* ===================================================================== *)

Section ClientFacts.

Import Client.

Variable net : Network.
Variable self : RateLimiterClient.

(** Every method sends exactly one request, returns the decoded reply (or
    raises what the transport or the decoder raised) and leaves [self] as it
    was.  This is the one fact about the method bodies the rest builds on. *)
Lemma call_invoke c :
  call net self (invoke c) =
  {| sent := [request_of self c];
     result := reply_json (net [] (request_of self c));
     self_after := self |}.
Proof.
  destruct self as [base s].
  destruct c; cbv -[String.append];
    match goal with
    | |- context [net [] ?r] => destruct (net [] r) as [[code [j|]]|]
    end; reflexivity.
Qed.

Lemma sent_invoke c : sent (call net self (invoke c)) = [request_of self c].
Proof. now rewrite call_invoke. Qed.

Lemma result_invoke c :
  result (call net self (invoke c)) = reply_json (net [] (request_of self c)).
Proof. now rewrite call_invoke. Qed.

Lemma self_after_invoke c : self_after (call net self (invoke c)) = self.
Proof. now rewrite call_invoke. Qed.

(** The demo's second step, [check_rate_limit("user-python-123",
    capacity=10, refill_rate=2)], against a server that refuses it. *)
Example check_rate_limit_demo :
  call rejecting demo_client (check_rate_limit "user-python-123" (Some 10) (Some 2)) =
  {| sent :=
       [ {| verb := POST;
            url := "http://localhost:8080/api/v1/limiter/check";
            req_headers := {[ "Content-Type" := "application/json" ]};
            json := Some (JObj [("key", JStr "user-python-123");
                                ("capacity", JInt 10);
                                ("refillRate", JInt 2)]) |} ];
     result := Ok (JObj [("error", JStr "invalid argument")]);
     self_after := demo_client |}.
Proof. reflexivity. Qed.

(** A method raises only what the transport or the JSON decoder raised. *)
Lemma reply_json_raised r e :
  reply_json r = Raised e ->
  (r = NoAnswer /\ e = RequestException) \/
  (exists resp, r = Answer resp /\ content resp = None /\ e = JSONDecodeError).
Proof.
  destruct r as [resp|]; simpl.
  - destruct (content resp) eqn:E; [discriminate|].
    intros [= <-]. right. now exists resp.
  - intros [= <-]. now left.
Qed.

End ClientFacts.

Section ClientClaims.

Import Client.

(** Closes a goal from a membership hypothesis that evaluates to false. *)
Ltac absurd_elem H :=
  exfalso; apply (bool_decide_pack _) in H; vm_compute in H; exact H.

(** C1.  The class has eleven public methods and no other: nine
    rate-limiter operations (check, penalty, reward, block, unblock, status,
    reset, delete, list), which are exactly the methods whose request goes
    under [/api/v1/limiter], and the two process-wide queries health and
    metrics.  Every rate-limiter operation except list has the key, a
    string, as its first parameter; list and the two queries have no
    parameter at all.  Against the method bodies: each method sends its one
    request with the verb and to the route of its operation, eleven
    different ones; a first argument is the key the request carries, after
    the route for status, reset and delete and as the ["key"] member of the
    body for the other five; and the methods without a parameter send a
    bare GET to [/api/v1/limiters], [/api/health] or [/api/metrics]. *)
Theorem client_operation_catalog :
  (forall c, operation c ∈ limiter_operations ++ process_queries) /\
  (forall o, o ∈ limiter_operations ++ process_queries <-> exists c, operation c = o) /\
  NoDup (limiter_operations ++ process_queries) /\
  length limiter_operations = 9%nat /\
  length process_queries = 2%nat /\
  (forall net self c,
     operation c ∈ limiter_operations <->
     exists r, sent (call net self (invoke c)) = [r] /\
               String.prefix (limiter_root self) (url r) = true) /\
  (forall c,
     operation c ∈ limiter_operations -> operation c <> list_all ->
     exists key rest, arguments c = ("key", AStr key) :: rest) /\
  (forall c, operation c = list_all -> arguments c = []) /\
  (forall c, operation c ∈ process_queries -> arguments c = []) /\
  (forall net self c,
     exists r,
       sent (call net self (invoke c)) = [r] /\
       verb r = fst (Wire.route (operation c)) /\
       url r = base_url self +:+ snd (Wire.route (operation c)) +:+ Wire.path_tail c) /\
  (forall o1 o2, Wire.route o1 = Wire.route o2 -> o1 = o2) /\
  (forall net self c key rest,
     arguments c = ("key", AStr key) :: rest ->
     exists r,
       sent (call net self (invoke c)) = [r] /\
       if Wire.in_path (operation c)
       then url r = base_url self +:+ snd (Wire.route (operation c)) +:+ key /\
            json r = None
       else url r = base_url self +:+ snd (Wire.route (operation c)) /\
            exists body, json r = Some body /\ field "key" body = Some (JStr key)) /\
  (forall net self c,
     arguments c = [] ->
     exists r,
       sent (call net self (invoke c)) = [r] /\ verb r = GET /\ json r = None /\
       url r = base_url self +:+ snd (Wire.route (operation c)) /\
       url r ∈ [base_url self +:+ "/api/v1/limiters";
                base_url self +:+ "/api/health";
                base_url self +:+ "/api/metrics"]).
Proof.
  assert (Hall : forall o : OpName, o ∈ limiter_operations ++ process_queries).
  { intros o. apply (bool_decide_unpack _). now destruct o. }
  split; [intros c; apply Hall|].
  split.
  { intros o. split; [intros _|intros _; apply Hall].
    destruct o;
      [ exists (CheckRateLimit "" None None) | exists (ApplyPenalty "" 0)
      | exists (ApplyReward "" 0) | exists (BlockKey "" 0)
      | exists (UnblockKey "") | exists (GetStatus "")
      | exists (ResetLimiter "") | exists (DeleteLimiter "")
      | exists ListLimiters | exists HealthCheck | exists GetMetrics ];
      reflexivity. }
  split; [apply (bool_decide_unpack _); reflexivity|].
  split; [reflexivity|]. split; [reflexivity|].
  split.
  { intros net self c. rewrite sent_invoke. split.
    - intros Hin. exists (request_of self c). split; [reflexivity|].
      unfold limiter_root.
      destruct c; cbn [request_of url];
        rewrite prefix_append_cancel; try reflexivity;
        absurd_elem Hin.
    - intros (r & [= <-] & Hp). unfold limiter_root in Hp.
      destruct c; cbn [request_of url] in Hp;
        rewrite prefix_append_cancel in Hp; try discriminate Hp;
        apply (bool_decide_unpack _); reflexivity. }
  split.
  { intros c Hin Hne.
    destruct c; simpl in *; try (eexists _, _; reflexivity);
      try congruence; absurd_elem Hin. }
  split.
  { intros c. destruct c; simpl; intros H; try discriminate H; reflexivity. }
  split.
  { intros c Hin.
    destruct c; simpl in *; try reflexivity;
      absurd_elem Hin. }
  split.
  { intros net self c. rewrite sent_invoke. eexists. split; [reflexivity|].
    destruct c; split; reflexivity. }
  split.
  { intros o1 o2 H. destruct o1, o2; try reflexivity; discriminate H. }
  split.
  { intros net self c key rest H. rewrite sent_invoke. eexists.
    split; [reflexivity|].
    destruct c; cbn in H; try discriminate H; injection H as -> _;
      cbn [Wire.in_path operation]; split; try reflexivity;
      eexists; (split; [reflexivity|]); unfold field, member;
      now rewrite String.eqb_refl. }
  intros net self c H. rewrite sent_invoke. eexists. split; [reflexivity|].
  destruct c; cbn in H; try discriminate H;
    (split; [reflexivity|]); (split; [reflexivity|]); (split; [reflexivity|]);
    cbn [request_of url]; set_solver.
Qed.

(** C2.  [check_rate_limit] sends one POST to
    [<base_url>/api/v1/limiter/check] whose JSON body is exactly
    [{"key": key, "capacity": capacity, "refillRate": refill_rate}].  Both
    numbers are optional for the caller, default to 100 and 10, and are in
    the body of every check, supplied or not. *)
Theorem check_rate_limit_request net self key :
  (forall capacity refill_rate,
     sent (call net self (check_rate_limit key capacity refill_rate)) =
     [ {| verb := POST;
          url := base_url self +:+ "/api/v1/limiter/check";
          req_headers := headers (session self);
          json := Some (JObj [("key", JStr key);
                              ("capacity", JInt (default 100 capacity));
                              ("refillRate", JInt (default 10 refill_rate))]) |} ]) /\
  (forall capacity refill_rate,
     map json (sent (call net self (check_rate_limit key (Some capacity) (Some refill_rate)))) =
     [ Some (JObj [("key", JStr key);
                   ("capacity", JInt capacity);
                   ("refillRate", JInt refill_rate)]) ]) /\
  map json (sent (call net self (check_rate_limit key None None))) =
    [ Some (JObj [("key", JStr key);
                  ("capacity", JInt 100);
                  ("refillRate", JInt 10)]) ].
Proof.
  split; [|split]; intros;
    match goal with
    | |- context [check_rate_limit ?k ?c ?r] =>
        change (check_rate_limit k c r) with (invoke (CheckRateLimit k c r))
    end; rewrite sent_invoke; reflexivity.
Qed.

(** Folds a method applied to its arguments into the call it is. *)
Ltac as_call :=
  repeat match goal with
  | |- context [health_check] => change health_check with (invoke HealthCheck)
  | |- context [get_metrics] => change get_metrics with (invoke GetMetrics)
  | |- context [list_limiters] => change list_limiters with (invoke ListLimiters)
  | |- context [check_rate_limit ?k ?c ?r] =>
      change (check_rate_limit k c r) with (invoke (CheckRateLimit k c r))
  | |- context [apply_penalty ?k ?p] =>
      change (apply_penalty k p) with (invoke (ApplyPenalty k p))
  | |- context [apply_reward ?k ?p] =>
      change (apply_reward k p) with (invoke (ApplyReward k p))
  | |- context [block_key ?k ?d] =>
      change (block_key k d) with (invoke (BlockKey k d))
  | |- context [unblock_key ?k] =>
      change (unblock_key k) with (invoke (UnblockKey k))
  | |- context [get_status ?k] =>
      change (get_status k) with (invoke (GetStatus k))
  | |- context [reset_limiter ?k] =>
      change (reset_limiter k) with (invoke (ResetLimiter k))
  | |- context [delete_limiter ?k] =>
      change (delete_limiter k) with (invoke (DeleteLimiter k))
  end.

(** C5.  [apply_penalty] posts [{"key": key, "points": points}] to
    [/api/v1/limiter/penalty] and [apply_reward] posts a body of the same
    shape to [/api/v1/limiter/reward]; besides the key, [points] is the one
    parameter either method has. *)
Theorem penalty_and_reward_requests net self key points :
  sent (call net self (apply_penalty key points)) =
    [ {| verb := POST;
         url := base_url self +:+ "/api/v1/limiter/penalty";
         req_headers := headers (session self);
         json := Some (JObj [("key", JStr key); ("points", JInt points)]) |} ] /\
  sent (call net self (apply_reward key points)) =
    [ {| verb := POST;
         url := base_url self +:+ "/api/v1/limiter/reward";
         req_headers := headers (session self);
         json := Some (JObj [("key", JStr key); ("points", JInt points)]) |} ] /\
  arguments (ApplyPenalty key points) = [("key", AStr key); ("points", AInt points)] /\
  arguments (ApplyReward key points) = [("key", AStr key); ("points", AInt points)].
Proof.
  as_call. rewrite !sent_invoke. repeat split.
Qed.

(** C6.  [block_key] posts exactly [{"key": key, "duration": duration}] to
    [/api/v1/limiter/block]; [unblock_key] posts exactly [{"key": key}],
    with no other member, to [/api/v1/limiter/unblock]. *)
Theorem block_and_unblock_requests net self key duration :
  sent (call net self (block_key key duration)) =
    [ {| verb := POST;
         url := base_url self +:+ "/api/v1/limiter/block";
         req_headers := headers (session self);
         json := Some (JObj [("key", JStr key); ("duration", JInt duration)]) |} ] /\
  sent (call net self (unblock_key key)) =
    [ {| verb := POST;
         url := base_url self +:+ "/api/v1/limiter/unblock";
         req_headers := headers (session self);
         json := Some (JObj [("key", JStr key)]) |} ].
Proof.
  as_call. rewrite !sent_invoke. split; reflexivity.
Qed.

(** C7.  [health_check] and [get_metrics] each send one GET request that
    carries no body, and the client object is afterwards what it was
    before, whatever came back. *)
Theorem health_and_metrics_read_only net self :
  sent (call net self health_check) =
    [ {| verb := GET;
         url := base_url self +:+ "/api/health";
         req_headers := headers (session self);
         json := None |} ] /\
  self_after (call net self health_check) = self /\
  sent (call net self get_metrics) =
    [ {| verb := GET;
         url := base_url self +:+ "/api/metrics";
         req_headers := headers (session self);
         json := None |} ] /\
  self_after (call net self get_metrics) = self.
Proof.
  as_call. rewrite !sent_invoke, !self_after_invoke. repeat split.
Qed.

(** C8.  [get_status], [reset_limiter] and [delete_limiter] paste the key
    as it is behind the route, with no escaping, while the five body methods
    send it as the ["key"] member of the JSON body and keep it out of the
    URL.  So the path methods address the key as one path segment only when
    it has no slash: for ["a/b"] the URL carries the two segments ["a"] and
    ["b"], while the body methods still name ["a/b"]; and deleting
    ["status/x"] addresses the very URL that the status of ["x"] lives at. *)
Theorem path_operations_interpolate_raw_key net self :
  (forall key,
     map url (sent (call net self (get_status key))) =
       [base_url self +:+ "/api/v1/limiter/status/" +:+ key] /\
     map url (sent (call net self (reset_limiter key))) =
       [base_url self +:+ "/api/v1/limiter/reset/" +:+ key] /\
     map url (sent (call net self (delete_limiter key))) =
       [base_url self +:+ "/api/v1/limiter/" +:+ key]) /\
  (forall key capacity refill_rate points duration c,
     c ∈ [CheckRateLimit key capacity refill_rate; ApplyPenalty key points;
          ApplyReward key points; BlockKey key duration; UnblockKey key] ->
     exists path body,
       sent (call net self (invoke c)) =
         [mkRequest POST (base_url self +:+ path) (headers (session self)) (Some body)] /\
       path ∈ ["/api/v1/limiter/check"; "/api/v1/limiter/penalty";
               "/api/v1/limiter/reward"; "/api/v1/limiter/block";
               "/api/v1/limiter/unblock"] /\
       field "key" body = Some (JStr key)) /\
  (forall key,
     map segments (map url (sent (call net self (get_status key)))) =
       [segments (base_url self +:+ "/api/v1/limiter/status") ++ segments key] /\
     map segments (map url (sent (call net self (reset_limiter key)))) =
       [segments (base_url self +:+ "/api/v1/limiter/reset") ++ segments key] /\
     map segments (map url (sent (call net self (delete_limiter key)))) =
       [segments (base_url self +:+ "/api/v1/limiter") ++ segments key] /\
     (segments key = [key] <-> Str.contains "/" key = false)) /\
  (segments "a/b" = ["a"; "b"] /\ segments "a/b" <> ["a/b"]) /\
  map url (sent (call net self (delete_limiter "status/x"))) =
    map url (sent (call net self (get_status "x"))).
Proof.
  split; [|split; [|split; [|split]]].
  - intros key. as_call. rewrite !sent_invoke. repeat split.
  - intros key capacity refill_rate points duration c Hin.
    rewrite sent_invoke.
    repeat (apply elem_of_cons in Hin as [-> | Hin]);
      [..|now apply elem_of_nil in Hin];
      eexists _, _; (split; [reflexivity|]);
      (split; [apply (bool_decide_unpack _); reflexivity|]);
      unfold field, member; now rewrite String.eqb_refl.
  - intros key. as_call. rewrite !sent_invoke. cbn [map request_of url].
    unfold segments.
    repeat split; try (apply split_single; assumption);
      try (intros H; apply split_single in H; assumption).
    + rewrite <- (split_app "/" (base_url self +:+ "/api/v1/limiter/status") key).
      now rewrite append_assoc.
    + rewrite <- (split_app "/" (base_url self +:+ "/api/v1/limiter/reset") key).
      now rewrite append_assoc.
    + rewrite <- (split_app "/" (base_url self +:+ "/api/v1/limiter") key).
      now rewrite append_assoc.
  - split; [reflexivity|discriminate].
  - as_call. rewrite !sent_invoke. reflexivity.
Qed.

(** C9.  The constructor stores [b] with all its trailing slashes removed
    and nothing else changed: [b] is the stored base URL followed by
    slashes only, the stored base URL does not end in a slash, and it is [b]
    itself when [b] does not end in one.  So constructing the client with
    [b] followed by any number of slashes gives the same client as
    constructing it with [b], and every method sends the same request, URL
    included, from either client: the stored base URL followed by the
    method's path. *)
Theorem base_url_trailing_slashes fresh b n :
  init fresh (Some (b +:+ Str.replicate n "/")) = init fresh (Some b) /\
  Str.endswith "/" (base_url (init fresh (Some b))) = false /\
  (forall net c,
     sent (call net (init fresh (Some (b +:+ Str.replicate n "/"))) (invoke c)) =
     sent (call net (init fresh (Some b)) (invoke c))) /\
  (forall net c,
     map url (sent (call net (init fresh (Some (b +:+ Str.replicate n "/"))) (invoke c))) =
     map url (sent (call net (init fresh (Some b)) (invoke c)))) /\
  base_url (init fresh (Some b)) = Str.rstrip "/" b /\
  (exists m, b = base_url (init fresh (Some b)) +:+ Str.replicate m "/") /\
  (Str.endswith "/" b = false -> base_url (init fresh (Some b)) = b) /\
  (forall t m, b = t +:+ Str.replicate m "/" -> Str.endswith "/" t = false ->
     base_url (init fresh (Some (b +:+ Str.replicate n "/"))) = t /\
     forall net,
       map url (sent (call net (init fresh (Some (b +:+ Str.replicate n "/")))
                       health_check)) = [t +:+ "/api/health"] /\
       map url (sent (call net (init fresh (Some (b +:+ Str.replicate n "/")))
                       (get_status "k"))) = [t +:+ "/api/v1/limiter/status/k"]).
Proof.
  assert (E : init fresh (Some (b +:+ Str.replicate n "/")) = init fresh (Some b)).
  { unfold init. cbv beta zeta iota delta [default from_option id].
    now rewrite rstrip_app_replicate. }
  assert (B : base_url (init fresh (Some b)) = Str.rstrip "/" b) by reflexivity.
  split; [exact E|]. split; [apply rstrip_endswith|].
  split; [intros net c; now rewrite E|].
  split; [intros net c; now rewrite E|].
  split; [exact B|]. rewrite E, B.
  split; [apply rstrip_decompose|].
  split; [apply rstrip_fixed|].
  intros t m -> Ht.
  rewrite rstrip_app_replicate, (rstrip_fixed "/" t Ht).
  split; [reflexivity|]. intros net.
  change health_check with (invoke HealthCheck).
  change (get_status "k") with (invoke (GetStatus "k")).
  rewrite !sent_invoke. cbn [map request_of url base_url init].
  cbv beta zeta iota delta [default from_option id].
  rewrite rstrip_app_replicate, (rstrip_fixed "/" t Ht). split; reflexivity.
Qed.

(** C10.  No method looks at its numbers before sending them: whatever
    integer is passed, negative ones included, the one request goes out with
    that integer in its body, the method returns the JSON the server
    answered with, and it raises only when the transport failed or the
    answer was not JSON.  Nothing is rejected on the client's side. *)
Theorem no_client_side_validation net self key capacity refill_rate points duration c req :
  (c, req) ∈ numeric_calls self key capacity refill_rate points duration ->
  sent (call net self (invoke c)) = [req] /\
  result (call net self (invoke c)) = reply_json (net [] req) /\
  (forall resp j, net [] req = Answer resp -> content resp = Some j ->
     result (call net self (invoke c)) = Ok j) /\
  (forall e, result (call net self (invoke c)) = Raised e ->
     (net [] req = NoAnswer /\ e = RequestException) \/
     (exists resp, net [] req = Answer resp /\ content resp = None /\
                   e = JSONDecodeError)).
Proof.
  intros Hin.
  assert (Hreq : req = request_of self c).
  { unfold numeric_calls in Hin.
    repeat (apply elem_of_cons in Hin as [[= -> ->] | Hin]); try reflexivity.
    now apply elem_of_nil in Hin. }
  subst req. rewrite sent_invoke, result_invoke.
  split; [reflexivity|]. split; [reflexivity|]. split.
  - intros resp j -> Hj. simpl. now rewrite Hj.
  - intros e. apply reply_json_raised.
Qed.

(** The theorem on the demo client and a penalty of minus three points,
    against a server that refuses it: the request still goes out, with -3
    in it, and the refusal comes back as the method's result. *)
Lemma no_client_side_validation_witness :
  (ApplyPenalty "user-python-123" (-3),
   mkRequest POST "http://localhost:8080/api/v1/limiter/penalty"
     (headers (session demo_client))
     (Some (JObj [("key", JStr "user-python-123"); ("points", JInt (-3))])))
  ∈ numeric_calls demo_client "user-python-123" (-1) (-2) (-3) (-4) /\
  sent (call rejecting demo_client (invoke (ApplyPenalty "user-python-123" (-3)))) =
    [ mkRequest POST "http://localhost:8080/api/v1/limiter/penalty"
        (headers (session demo_client))
        (Some (JObj [("key", JStr "user-python-123"); ("points", JInt (-3))])) ] /\
  result (call rejecting demo_client (invoke (ApplyPenalty "user-python-123" (-3)))) =
    Ok (JObj [("error", JStr "invalid argument")]).
Proof.
  assert (Hin :
    (ApplyPenalty "user-python-123" (-3),
     mkRequest POST "http://localhost:8080/api/v1/limiter/penalty"
       (headers (session demo_client))
       (Some (JObj [("key", JStr "user-python-123"); ("points", JInt (-3))])))
    ∈ numeric_calls demo_client "user-python-123" (-1) (-2) (-3) (-4)).
  { apply list_elem_of_further, list_elem_of_here. }
  split; [exact Hin|].
  destruct (no_client_side_validation rejecting demo_client "user-python-123"
              (-1) (-2) (-3) (-4) _ _ Hin) as (Hsent & _ & Hok & _).
  split; [exact Hsent|].
  apply (Hok (mkResponse 400 (Some (JObj [("error", JStr "invalid argument")]))));
    reflexivity.
Defined.

End ClientClaims.

(* ===================================================================== *)
(** ** The bucket invariant *)
(* ===================================================================== *)

Section BucketFacts.

Import Bucket.















Lemma millis_le_whole m n : (millis m <= inject_Z n)%Q <-> m <= 1000 * n.
Proof. unfold millis, Qle, Qdiv, Qmult, Qinv, inject_Z. simpl. lia. Qed.

Lemma millis_ge_one m : (1 <= millis m)%Q <-> 1000 <= m.
Proof. unfold millis, Qle, Qdiv, Qmult, Qinv, inject_Z. simpl. lia. Qed.

Lemma millis_refill m elapsed rate :
  (millis m + inject_Z elapsed / 1000 * inject_Z rate == millis (m + elapsed * rate))%Q.
Proof. unfold millis. rewrite inject_Z_plus, inject_Z_mult. field. Qed.

Lemma millis_consume m : (millis m - 1 == millis (m - 1000))%Q.
Proof.
  unfold millis, Qeq, Qminus, Qplus, Qopp, Qdiv, Qmult, Qinv, inject_Z.
  simpl. lia.
Qed.

(** One [check] on a bucket that is not blocked and already has the
    requested capacity and rate, counted in thousandths of a token: the
    refill adds [elapsed * rate], and a token is taken when a whole one is
    there. *)
Lemma check_in_millis b now cap rate m :
  blockedUntil b = None -> capacity b = cap -> refillRate b = rate ->
  (tokens b == millis m)%Q ->
  m + (now - lastRefillAt b) * rate <= 1000 * cap ->
  exists r b',
    check now (Some cap) (Some rate) b = (r, b') /\
    blockedUntil b' = None /\ capacity b' = cap /\ refillRate b' = rate /\
    lastRefillAt b' = now /\
    if 1000 <=? m + (now - lastRefillAt b) * rate
    then allowed r = true /\ reason r = None /\
         (tokens b' == millis (m + (now - lastRefillAt b) * rate - 1000))%Q
    else allowed r = false /\ reason r = Some "rate_limited" /\
         (tokens b' == millis (m + (now - lastRefillAt b) * rate))%Q.
Proof.
  intros Hblk Hcap Hrate Htok Hle.
  set (m' := m + (now - lastRefillAt b) * rate) in *.
  unfold check, configure, isBlocked.
  rewrite Hcap, Z.eqb_refl, Hrate, Z.eqb_refl, Hblk.
  assert (Hx : (tokens (refill now b) == millis m')%Q).
  { unfold refill. simpl. rewrite Hcap, Hrate, Htok, millis_refill.
    fold m'. apply Q.min_r. now apply (proj2 (millis_le_whole m' cap)). }
  destruct (Qle_bool 1 (tokens (refill now b))) eqn:E.
  - eexists _, _. split; [reflexivity|]. simpl.
    repeat (split; [assumption || reflexivity|]).
    apply Qle_bool_iff in E. rewrite Hx in E.
    apply (proj1 (millis_ge_one m')) in E.
    destruct (Z.leb_spec 1000 m') as [_|Hlt]; [|lia].
    split; [reflexivity|]. split; [reflexivity|].
    fold (tokens (refill now b)). now rewrite Hx, millis_consume.
  - eexists _, _. split; [reflexivity|]. simpl.
    repeat (split; [assumption || reflexivity|]).
    destruct (Z.leb_spec 1000 m') as [Hge|_].
    + exfalso. apply (proj2 (millis_ge_one m')) in Hge. rewrite <- Hx in Hge.
      apply Qle_bool_iff in Hge. congruence.
    + split; [reflexivity|]. split; [reflexivity|].
      fold (tokens (refill now b)). exact Hx.
Qed.



End BucketFacts.

(* ===================================================================== *)
(** ** The engine keeps the invariant *)
(* ===================================================================== *)

Section EngineFacts.

Import Engine.






Lemma resolve_present e key cap rate now b :
  registry e !! key = Some b -> resolve key cap rate now e = b.
Proof. intros H. unfold resolve, Registry.getOrCreate. now rewrite H. Qed.

Lemma resolve_absent e key cap rate now :
  registry e !! key = None ->
  resolve key (Some cap) (Some rate) now e = Bucket.create key cap rate now.
Proof. intros H. unfold resolve, Registry.getOrCreate. now rewrite H. Qed.

(** One [check] of the engine on a bucket described in thousandths of a
    token: the refill adds [elapsed * rate]; with a whole token there the
    request is admitted and the token taken, otherwise it is turned down as
    rate limited. *)
Lemma step_check_holds e key now cap rate last m :
  0 < cap -> 0 <= rate ->
  holds key cap rate last m e ->
  m + (now - last) * rate <= 1000 * cap ->
  exists r e',
    step now (Check key (Some cap) (Some rate)) e = (Checked r, e') /\
    if 1000 <=? m + (now - last) * rate
    then verdict (Checked r) = Some (true, None) /\
         holds key cap rate now (m + (now - last) * rate - 1000) e'
    else verdict (Checked r) = Some (false, Some "rate_limited") /\
         holds key cap rate now (m + (now - last) * rate) e'.
Proof.
  intros Hcap Hrate (b & Hb & Hblk & Hc & Hr & Hl & Htok) Hle.
  rewrite <- Hl in Hle.
  destruct (check_in_millis b now cap rate m Hblk Hc Hr Htok Hle)
    as (r & b' & Hchk & Hblk' & Hc' & Hr' & Hl' & Hv).
  exists r. cbn [step].
  rewrite (resolve_present e key _ _ now b Hb), Hchk.
  assert (Vc : valid_capacity (Some cap) = true) by now apply Z.ltb_lt.
  assert (Vr : valid_refillRate (Some rate) = true) by now apply Z.leb_le.
  rewrite Vc, Vr. cbn [andb].
  eexists. split; [reflexivity|].
  rewrite Hl in Hv.
  destruct (1000 <=? m + (now - last) * rate);
    destruct Hv as (Ha & Hrs & Ht); cbn [verdict]; rewrite Ha, Hrs;
    (split; [reflexivity|]); exists b';
    (split; [apply lookup_insert_eq|]); repeat split; assumption.
Qed.

(** The first [check] of an unseen key creates its bucket full and takes one
    token from it. *)
Lemma step_check_fresh e key now cap rate :
  0 < cap -> 0 <= rate ->
  registry e !! key = None ->
  exists r e',
    step now (Check key (Some cap) (Some rate)) e = (Checked r, e') /\
    verdict (Checked r) = Some (true, None) /\
    holds key cap rate now (1000 * cap - 1000) e'.
Proof.
  intros Hcap Hrate Hfresh.
  set (b := Bucket.create key cap rate now).
  assert (Htok : (Bucket.tokens b == Bucket.millis (1000 * cap))%Q).
  { simpl. unfold Bucket.millis, Qeq, Qdiv, Qmult, Qinv, inject_Z. simpl. lia. }
  destruct (check_in_millis b now cap rate (1000 * cap) eq_refl eq_refl eq_refl Htok)
    as (r & b' & Hchk & Hblk' & Hc' & Hr' & Hl' & Hv); [simpl; lia|].
  exists r. cbn [step].
  rewrite (resolve_absent e key cap rate now Hfresh). fold b. rewrite Hchk.
  assert (Vc : valid_capacity (Some cap) = true) by now apply Z.ltb_lt.
  assert (Vr : valid_refillRate (Some rate) = true) by now apply Z.leb_le.
  rewrite Vc, Vr. cbn [andb].
  eexists. split; [reflexivity|].
  simpl Bucket.lastRefillAt in Hv.
  replace (1000 * cap + (now - now) * rate) with (1000 * cap) in Hv by lia.
  destruct (Z.leb_spec 1000 (1000 * cap)) as [_|?]; [|lia].
  destruct Hv as (Ha & Hrs & Ht). cbn [verdict]. rewrite Ha, Hrs.
  split; [reflexivity|]. exists b'.
  split; [apply lookup_insert_eq|]. repeat split; assumption.
Qed.

Lemma fst_serve_cons ev rest e :
  fst (serve (ev :: rest) e) =
  fst (step (at_ms ev) (op ev) e)
    :: fst (serve rest (snd (step (at_ms ev) (op ev) e))).
Proof.
  cbn [serve]. destruct (step (at_ms ev) (op ev) e) as [out e1].
  cbn [fst snd]. now destruct (serve rest e1).
Qed.

(** The short run of the demo key by evaluation: the check leaves 9 of 10
    tokens, the penalty of 3 leaves 6, the block ends where it starts. *)
Example demo_run_outcomes :
  fst (serve demo_run (start demo_config)) =
  [ Checked (Bucket.mkCheckResult true 9 10 None); PenaltyApplied 6; Blocked 200 ].
Proof. vm_compute. reflexivity. Qed.

(** The exhaustion run by evaluation, with the token counts it reports. *)
Example exhaustion_run_outcomes :
  fst (serve exhaustion_run (start demo_config)) =
  [ Checked (Bucket.mkCheckResult true 4 5 None);
    Checked (Bucket.mkCheckResult true 3 5 None);
    Checked (Bucket.mkCheckResult true 2 5 None);
    Checked (Bucket.mkCheckResult true 1 5 None);
    Checked (Bucket.mkCheckResult true 0 5 None);
    Checked (Bucket.mkCheckResult false 0 5 (Some "rate_limited")) ].
Proof. vm_compute. reflexivity. Qed.

(** A seventh check a full second after the first is admitted again. *)
Example exhaustion_then_refill :
  verdict <$> fst (serve (exhaustion_run ++
                          [mkEvent 1000 (Check "demo-python-user" (Some 5) (Some 1))])
                         (start demo_config)) =
  [ Some (true, None); Some (true, None); Some (true, None);
    Some (true, None); Some (true, None);
    Some (false, Some "rate_limited"); Some (true, None) ].
Proof. vm_compute. reflexivity. Qed.






End EngineFacts.

(* ===================================================================== *)
(** ** Claims about the engine *)
(* ===================================================================== *)

Section EngineClaims.

Import Engine.



(** A block of zero duration leaves the bucket without a block. *)
Example zero_block_sets_nothing :
  fst (serve zero_block_run (start demo_config)) = [Blocked 1000] /\
  exists b,
    registry (snd (serve zero_block_run (start demo_config)))
      !! "spammer-python-456" = Some b /\
    Bucket.blockedUntil b = None.
Proof.
  split; [reflexivity|].
  eexists. split; [apply lookup_insert_eq|reflexivity].
Qed.

(** Serves the next check of a key whose bucket is known in thousandths of
    a token, and reads off its verdict. *)
Ltac serve_check H :=
  match type of H with
  | holds ?key ?cap ?rate ?last ?m ?e =>
      match goal with
      | |- context [serve ({| at_ms := ?now; op := _ |} :: _) e] =>
          let r := fresh "r" in
          let e' := fresh "e" in
          let Hs := fresh "Hs" in
          let Hv := fresh "Hv" in
          rewrite fst_serve_cons; cbn [at_ms op];
          destruct (step_check_holds e key now cap rate last m) as (r & e' & Hs & Hv);
          [lia | lia | exact H | lia |];
          rewrite Hs; clear Hs H; cbn [fst snd];
          let Hcmp := fresh "Hcmp" in
          destruct (Z.leb_spec 1000 (m + (now - last) * rate)) as [Hcmp|Hcmp];
          try lia; clear Hcmp;
          destruct Hv as [Hv H]; rewrite fmap_cons, Hv; clear Hv
      end
  end.

(** C4.  On a key the engine has not seen, six checks with [capacity=5,
    refillRate=1] served within less than a second (too short for the
    bucket to regain a whole token) come out as: the first five
    [allowed=true], the sixth [allowed=false] with [reason="rate_limited"]. *)
Theorem fresh_key_exhaustion e key t1 t2 t3 t4 t5 t6 :
  registry e !! key = None ->
  monotonic t1 (six_checks key t1 t2 t3 t4 t5 t6) ->
  t6 - t1 < 1000 ->
  verdict <$> fst (serve (six_checks key t1 t2 t3 t4 t5 t6) e) =
  [ Some (true, None); Some (true, None); Some (true, None);
    Some (true, None); Some (true, None);
    Some (false, Some "rate_limited") ].
Proof.
  intros Hfresh Hm Hwin.
  unfold six_checks in *. cbn [fmap list_fmap monotonic at_ms] in Hm.
  destruct Hm as (_ & H12 & H23 & H34 & H45 & H56 & _).
  cbn [fmap list_fmap]. rewrite fst_serve_cons. cbn [at_ms op].
  destruct (step_check_fresh e key t1 5 1) as (r1 & e1 & -> & V1 & H);
    [lia|lia|exact Hfresh|].
  cbn [fst snd]. rewrite fmap_cons, V1. clear V1.
  do 5 serve_check H.
  reflexivity.
Qed.

(** The theorem on the run of the client's demo: a fresh engine and six
    checks of ["demo-python-user"] a tenth of a second apart. *)
Lemma fresh_key_exhaustion_witness :
  registry (start demo_config) !! "demo-python-user" = None /\
  monotonic 0 exhaustion_run /\
  500 - 0 < 1000 /\
  verdict <$> fst (serve exhaustion_run (start demo_config)) =
  [ Some (true, None); Some (true, None); Some (true, None);
    Some (true, None); Some (true, None);
    Some (false, Some "rate_limited") ].
Proof.
  assert (Hfresh : registry (start demo_config) !! "demo-python-user" = None)
    by reflexivity.
  assert (Hm : monotonic 0 exhaustion_run) by (simpl; lia).
  assert (Hwin : 500 - 0 < 1000) by lia.
  split; [exact Hfresh|]. split; [exact Hm|]. split; [exact Hwin|].
  exact (fresh_key_exhaustion (start demo_config) "demo-python-user"
           0 100 200 300 400 500 Hfresh Hm Hwin).
Defined.

End EngineClaims.

(* ===================================================================== *)
(** ** More about the client's methods *)
(* ===================================================================== *)

Section MoreClientFacts.

Import Client Wire.

(** X1.  [str.rstrip], completely: the result is the one string that does not
    end in [c] and from which the argument is got back by appending copies
    of [c].  So stripping changes nothing but trailing copies of [c],
    leaves a string alone exactly when it does not end in [c], and
    stripping twice is stripping once. *)
Theorem rstrip_characterised c s :
  (exists n, s = Str.rstrip c s +:+ Str.replicate n c) /\
  Str.endswith c (Str.rstrip c s) = false /\
  (forall t n, s = t +:+ Str.replicate n c -> Str.endswith c t = false ->
     Str.rstrip c s = t) /\
  (Str.rstrip c s = s <-> Str.endswith c s = false) /\
  Str.rstrip c (Str.rstrip c s) = Str.rstrip c s.
Proof.
  split; [apply rstrip_decompose|].
  split; [apply rstrip_endswith|].
  split.
  { intros t n -> Ht. rewrite rstrip_app_replicate. now apply rstrip_fixed. }
  split.
  { split; [intros <-; apply rstrip_endswith|apply rstrip_fixed]. }
  apply rstrip_fixed, rstrip_endswith.
Qed.

Lemma run_invoke net log self c :
  run net log (invoke c self) =
  (log ++ [request_of self c],
   (reply_json (net log (request_of self c)), self)).
Proof.
  destruct self as [base s].
  destruct c; cbv -[String.append app];
    match goal with
    | |- context [net log ?r] => destruct (net log r) as [[code [j|]]|]
    end; reflexivity.
Qed.

(** X3.  Each of the eleven methods, called at any point of a session, makes
    exactly one call of a session method ([get], [post] or [delete]),
    whatever comes back: the client's own code never retries and never
    issues a second call.  It hands back what that one call returned or
    raised, and rebinds neither [base_url] nor [session].  What the library
    does inside the call (following a redirect, keeping cookies) is not the
    client's code. *)
Theorem one_request_per_call net log self c :
  exists req,
    fst (run net log (invoke c self)) = log ++ [req] /\
    fst (snd (run net log (invoke c self))) = reply_json (net log req) /\
    snd (snd (run net log (invoke c self))) = self /\
    length (sent (call net self (invoke c))) = 1%nat /\
    self_after (call net self (invoke c)) = self.
Proof.
  exists (request_of self c). rewrite run_invoke, call_invoke. repeat split.
Qed.

(** X5.  The four methods that send no body.  [get_status] is a GET,
    [reset_limiter] a POST and [delete_limiter] a DELETE, each to its route
    followed by the key and each without a JSON body. *)
Theorem path_method_requests net self key :
  sent (call net self (get_status key)) =
    [ {| verb := GET;
         url := base_url self +:+ "/api/v1/limiter/status/" +:+ key;
         req_headers := headers (session self);
         json := None |} ] /\
  sent (call net self (reset_limiter key)) =
    [ {| verb := POST;
         url := base_url self +:+ "/api/v1/limiter/reset/" +:+ key;
         req_headers := headers (session self);
         json := None |} ] /\
  sent (call net self (delete_limiter key)) =
    [ {| verb := DELETE;
         url := base_url self +:+ "/api/v1/limiter/" +:+ key;
         req_headers := headers (session self);
         json := None |} ].
Proof.
  change (get_status key) with (invoke (GetStatus key)).
  change (reset_limiter key) with (invoke (ResetLimiter key)).
  change (delete_limiter key) with (invoke (DeleteLimiter key)).
  rewrite !sent_invoke. repeat split.
Qed.

(** X6.  [list_limiters] sends one GET to [<base_url>/api/v1/limiters], a URL no
    key enters, without a body, and leaves the client as it was. *)
Theorem list_limiters_request net self :
  sent (call net self list_limiters) =
    [ {| verb := GET;
         url := base_url self +:+ "/api/v1/limiters";
         req_headers := headers (session self);
         json := None |} ] /\
  self_after (call net self list_limiters) = self.
Proof.
  change list_limiters with (invoke ListLimiters).
  rewrite sent_invoke, self_after_invoke. split; reflexivity.
Qed.

(** X4.  No method looks at the HTTP status.  It returns the body whenever the
    body is JSON, be the status 200, 404 or 500; it raises
    [RequestException] exactly when the transport gave no response and
    [JSONDecodeError] exactly when the response's body is not JSON. *)
Theorem result_follows_body_only net self c :
  (forall code body,
     result (call (answering code body) self (invoke c)) = Ok body) /\
  (forall j,
     result (call net self (invoke c)) = Ok j <->
     exists code, net [] (request_of self c) = Answer (mkResponse code (Some j))) /\
  (result (call net self (invoke c)) = Raised RequestException <->
   net [] (request_of self c) = NoAnswer) /\
  (result (call net self (invoke c)) = Raised JSONDecodeError <->
   exists code, net [] (request_of self c) = Answer (mkResponse code None)).
Proof.
  split; [intros code body; now rewrite result_invoke|].
  rewrite result_invoke.
  destruct (net [] (request_of self c)) as [[code [j'|]]|]; simpl.
  - split; [|split].
    + intros j. split; [intros [= <-]; now exists code|intros [code' [= _ <-]]; reflexivity].
    + split; discriminate.
    + split; [discriminate|intros [code' [=]]].
  - split; [|split].
    + intros j. split; [discriminate|intros [code' [=]]].
    + split; discriminate.
    + split; [intros _; now exists code|reflexivity].
  - split; [|split].
    + intros j. split; [discriminate|intros [code' [=]]].
    + split; reflexivity.
    + split; [discriminate|intros [code' [=]]].
Qed.

(** X2.  Whatever session the library hands to the constructor and whatever base
    URL is passed or left out, every request of every method of the client
    it builds carries the header [Content-Type: application/json]; with the
    base URL left out the requests go to [http://localhost:8080]. *)
Theorem constructed_client_headers fresh b net c :
  Forall (fun r => req_headers r !! "Content-Type" = Some "application/json")
         (sent (call net (init fresh b) (invoke c))) /\
  base_url (init fresh None) = "http://localhost:8080" /\
  map url (sent (call net (init fresh None) (invoke HealthCheck))) =
    ["http://localhost:8080/api/health"].
Proof.
  rewrite !sent_invoke. split; [|split; reflexivity].
  constructor; [|constructor].
  assert (H : req_headers (request_of (init fresh b) c) =
              <["Content-Type" := "application/json"]> (headers fresh))
    by now destruct c.
  rewrite H. apply lookup_insert_eq.
Qed.

Lemma request_of_explicit self c : request_of self (explicit c) = request_of self c.
Proof. now destruct c. Qed.

Lemma url_tail_inj (base x y : string) : base +:+ x = base +:+ y -> x = y.
Proof.
  induction base as [|a base IH]; [trivial|].
  change (String a (base +:+ x) = String a (base +:+ y) -> x = y).
  intros [= H]. now apply IH.
Qed.

(** X7.  The request tells the call.  Two calls put the same request on the wire
    exactly when they are the same method with the same arguments, a
    keyword argument left out counting as its default: no two methods share
    a request, and no two keys or numbers do within one method. *)
Theorem request_determines_call net self c1 c2 :
  sent (call net self (invoke c1)) = sent (call net self (invoke c2)) <->
  explicit c1 = explicit c2.
Proof.
  rewrite !sent_invoke. split.
  - intros [= H].
    pose proof (f_equal verb H) as Hv.
    pose proof (f_equal url H) as Hu.
    pose proof (f_equal json H) as Hb. clear H.
    destruct c1, c2; cbn [request_of verb url json] in Hv, Hu, Hb;
      try discriminate Hv;
      apply url_tail_inj in Hu; cbn in Hu;
      try discriminate Hu; try discriminate Hb;
      try apply url_tail_inj in Hu;
      cbn [explicit]; congruence.
  - intros H. rewrite <- (request_of_explicit self c1), H.
    now rewrite request_of_explicit.
Qed.

End MoreClientFacts.

(* ===================================================================== *)
(** ** The example script *)
(* ===================================================================== *)

Section ScriptFacts.

Import Client Script.

Lemma requests_app t1 t2 : requests (t1 ++ t2) = requests t1 ++ requests t2.
Proof.
  induction t1 as [|[line|q|r] t1 IH]; simpl; [reflexivity|exact IH|exact IH|].
  now rewrite IH.
Qed.

Lemma perform_invoke net trace self c :
  perform net trace (invoke c self) =
  (trace ++ [Requested (request_of self c)],
   (reply_json (net (requests trace) (request_of self c)), self)).
Proof.
  destruct self as [base s].
  destruct c; cbv -[String.append app requests];
    match goal with
    | |- context [net ?l ?r] => destruct (net l r) as [[code [j|]]|]
    end; reflexivity.
Qed.

Lemma exec_bind {A B} net (s : Script A) (f : A -> Script B) : forall self trace,
  exec net self trace (Script.bind s f) =
  match outcome (exec net self trace s) with
  | Got a => exec net (client_after (exec net self trace s))
                  (effects (exec net self trace s)) (f a)
  | Threw e => mkRun (effects (exec net self trace s)) (Threw e)
                     (client_after (exec net self trace s))
  end.
Proof.
  induction s as [a|e|line k IH|q k IH|m k IH]; intros self trace; cbn [Script.bind exec].
  - reflexivity.
  - reflexivity.
  - apply IH.
  - apply IH.
  - destruct (perform net trace (m self)) as [trace' [[j|e] self']]; [apply IH|reflexivity].
Qed.

Section Respects.

Variable P : list Fragment -> Prop.

Lemma respects_fin {A} (a : A) : respects P [] (Fin a).
Proof.
  intros net self trace. exists [], []. cbn.
  rewrite app_nil_r. repeat split; [constructor|reflexivity].
Qed.

Lemma respects_throw {A} L e : respects P L (Throw e : Script A).
Proof.
  intros net self trace. exists [], []. cbn.
  rewrite app_nil_r. repeat split; [constructor|apply prefix_nil|discriminate].
Qed.

Lemma respects_attempt {A} (t : Try A) : respects P [] (attempt t).
Proof. destruct t; [apply respects_fin|apply respects_throw]. Qed.

Lemma respects_print line : P line -> respects P [] (print line).
Proof.
  intros HP net self trace. exists [Printed line], []. cbn.
  repeat split; [repeat constructor; exact HP|reflexivity].
Qed.

Lemma respects_sleep q : respects P [] (sleep q).
Proof.
  intros net self trace. exists [Slept q], []. cbn.
  repeat split; [repeat constructor|reflexivity].
Qed.

Lemma respects_method c : respects P [c] (method (invoke c)).
Proof.
  intros net self trace. unfold method. cbn [exec].
  rewrite perform_invoke.
  exists [Requested (request_of self c)], [c].
  assert (Hp : Forall (printed_ok P) [Requested (request_of self c)])
    by (repeat constructor).
  destruct (reply_json _); cbn; (split; [reflexivity|]); (split; [reflexivity|]);
    (split; [exact Hp|]); (split; [reflexivity|]); (split; [reflexivity|]);
    intros; reflexivity.
Qed.

Lemma respects_bind {A B} L1 L2 (s : Script A) (f : A -> Script B) :
  respects P L1 s -> (forall a, respects P L2 (f a)) ->
  respects P (L1 ++ L2) (Script.bind s f).
Proof.
  intros Hs Hf net self trace. rewrite exec_bind.
  destruct (Hs net self trace) as (new1 & L1' & He1 & Hc1 & Hp1 & Hr1 & Hx1 & Hg1).
  destruct (outcome (exec net self trace s)) as [a|e].
  - specialize (Hg1 a eq_refl). subst L1'.
    rewrite Hc1, He1.
    destruct (Hf a net self (trace ++ new1))
      as (new2 & L2' & He2 & Hc2 & Hp2 & Hr2 & Hx2 & Hg2).
    exists (new1 ++ new2), (L1 ++ L2').
    rewrite He2, Hc2, app_assoc, requests_app, Hr1, Hr2, fmap_app.
    repeat split.
    + now apply Forall_app.
    + now apply prefix_app.
    + intros b Hb. now rewrite (Hg2 b Hb).
  - exists new1, L1'. cbn. repeat split; try assumption.
    + now apply prefix_app_r.
    + discriminate.
Qed.

Lemma respects_for_silent {A} (xs : list A) (body : A -> Script unit) :
  (forall x, respects P [] (body x)) -> respects P [] (for_each xs body).
Proof.
  intros Hb. induction xs as [|x xs IH]; [apply respects_fin|].
  cbn [for_each]. apply (respects_bind [] []); [apply Hb|intros _; exact IH].
Qed.

End Respects.

(** The loops of the script that run over a list written out in it. *)
Ltac unroll_loops :=
  change (seqZ 1 12) with [1; 2; 3; 4; 5; 6; 7; 8; 9; 10; 11; 12];
  cbn [for_each].

(** Proves [respects P ?L s] along the statements of [s]; the obligations
    on printed lines are left to [side]. *)
Ltac respects_with side :=
  repeat lazymatch goal with
  | |- respects _ [] (Script.bind _ _) => apply (respects_bind _ [] []); [|intros ?]
  | |- respects _ [] (mbind _ _) => apply (respects_bind _ [] []); [|intros ?]
  | |- respects _ _ (Script.bind _ _) => eapply respects_bind; [|intros ?]
  | |- respects _ _ (mbind _ _) => eapply respects_bind; [|intros ?]
  | |- respects _ _ (print _) => apply respects_print; side
  | |- respects _ _ (sleep _) => apply respects_sleep
  | |- respects _ _ (attempt _) => apply respects_attempt
  | |- respects _ _ (Fin _) => apply respects_fin
  | |- respects _ _ (for_each _ _) => apply respects_for_silent; intros ?
  | |- respects _ _ (method health_check) =>
      apply (respects_method _ HealthCheck)
  | |- respects _ _ (method get_metrics) =>
      apply (respects_method _ GetMetrics)
  | |- respects _ _ (method list_limiters) =>
      apply (respects_method _ ListLimiters)
  | |- respects _ _ (method (check_rate_limit ?k ?c ?r)) =>
      apply (respects_method _ (CheckRateLimit k c r))
  | |- respects _ _ (method (apply_penalty ?k ?n)) =>
      apply (respects_method _ (ApplyPenalty k n))
  | |- respects _ _ (method (apply_reward ?k ?n)) =>
      apply (respects_method _ (ApplyReward k n))
  | |- respects _ _ (method (block_key ?k ?n)) =>
      apply (respects_method _ (BlockKey k n))
  | |- respects _ _ (method (unblock_key ?k)) =>
      apply (respects_method _ (UnblockKey k))
  | |- respects _ _ (method (get_status ?k)) =>
      apply (respects_method _ (GetStatus k))
  | |- respects _ _ (method (reset_limiter ?k)) =>
      apply (respects_method _ (ResetLimiter k))
  | |- respects _ _ (method (delete_limiter ?k)) =>
      apply (respects_method _ (DeleteLimiter k))
  end.

(** Whatever the server answers, the script keeps to its list of calls. *)
Lemma demo_respects h : respects (fun _ => True) demo_calls (demo h).
Proof.
  assert (H : exists L, respects (fun _ => True) L (demo h) /\ L = demo_calls).
  { eexists. split.
    - unfold demo. unroll_loops. respects_with ltac:(exact I).
    - reflexivity. }
  destruct H as (L & H & <-). exact H.
Qed.

(** *** The success line *)

Lemma announces_bind {A B} L (s : Script A) (f : A -> Script B) :
  respects not_success L s -> (forall a, announces (f a)) ->
  announces (Script.bind s f).
Proof.
  intros Hs Hf net self trace. rewrite exec_bind.
  destruct (Hs net self trace) as (new1 & L1' & He1 & Hc1 & Hp1 & _).
  destruct (outcome (exec net self trace s)) as [a|e].
  - rewrite Hc1, He1.
    destruct (Hf a net self (trace ++ new1)) as (new2 & He2 & Hg2 & Ht2).
    exists (new1 ++ new2). rewrite He2, app_assoc.
    split; [reflexivity|]. split.
    + intros Hg. apply elem_of_app. right. now apply Hg2.
    + intros Ht. apply Forall_app. split; [exact Hp1|now apply Ht2].
  - exists new1. cbn. split; [exact He1|]. split.
    + intros [a [=]].
    + intros _. exact Hp1.
Qed.

Lemma announces_final : announces (print success_line ;; print bar).
Proof.
  intros net self trace.
  exists [Printed success_line; Printed bar]. cbn.
  rewrite <- app_assoc. split; [reflexivity|]. split.
  - intros _. apply list_elem_of_here.
  - intros [e [=]].
Qed.

(** A printed line that is not the success line. *)
Ltac other_line :=
  let H := fresh in intros H; vm_compute in H; discriminate H.

Lemma demo_announces h : announces (demo h).
Proof.
  unfold demo. unroll_loops.
  repeat lazymatch goal with
  | |- announces (print success_line ;; print bar) => apply announces_final
  | |- announces (mbind _ _) =>
      eapply announces_bind; [respects_with other_line|intros ?]
  end.
Qed.

(** *** Running to the end *)

Section Finishes.

Variable net : Network.
Variable self : RateLimiterClient.












End Finishes.





(** *** Stopping at the first failure *)

Lemma all_answered_app net log l1 l2 :
  all_answered net log (l1 ++ l2) <->
  all_answered net log l1 /\ all_answered net (log ++ l1) l2.
Proof.
  revert log. induction l1 as [|r l1 IH]; intros log; cbn.
  - rewrite app_nil_r. tauto.
  - rewrite IH, <- app_assoc. cbn. tauto.
Qed.

Lemma stops_fin {A} (a : A) : stops_at_failure (Fin a).
Proof.
  intros net self trace. exists []. cbn. rewrite app_nil_r.
  repeat split. discriminate.
Qed.

Lemma stops_print line : stops_at_failure (print line).
Proof.
  intros net self trace. exists [Printed line]. cbn.
  repeat split. discriminate.
Qed.

Lemma stops_sleep q : stops_at_failure (sleep q).
Proof.
  intros net self trace. exists [Slept q]. cbn.
  repeat split. discriminate.
Qed.

Lemma stops_attempt {A} (t : Try A) :
  (forall e, t <> Threw (ClientError e)) -> stops_at_failure (attempt t).
Proof.
  intros Ht net self trace. exists []. rewrite app_nil_r.
  destruct t as [a|e]; cbn; repeat split; try discriminate.
  intros e' [= ->]. now destruct (Ht e').
Qed.

Lemma stops_method c : stops_at_failure (method (invoke c)).
Proof.
  intros net self trace. unfold method. cbn [exec]. rewrite perform_invoke.
  exists [Requested (request_of self c)].
  destruct (reply_json (net (requests trace) (request_of self c))) as [j|e] eqn:E;
    cbn; (split; [reflexivity|]); (split; [reflexivity|]); (split; [exact I|]).
  - split; [intros _; split; [now exists j|exact I]|discriminate].
  - split; [intros H; now destruct (H e)|].
    intros e' [= <-]. exists [], (request_of self c).
    rewrite app_nil_r. now split.
Qed.

Lemma stops_bind {A B} (s : Script A) (f : A -> Script B) :
  stops_at_failure s -> (forall a, stops_at_failure (f a)) ->
  stops_at_failure (Script.bind s f).
Proof.
  intros Hs Hf net self trace. rewrite exec_bind.
  destruct (Hs net self trace) as (new1 & He1 & Hc1 & Hl1 & Hg1 & Ht1).
  destruct (outcome (exec net self trace s)) as [a|e].
  - rewrite Hc1, He1.
    destruct (Hf a net self (trace ++ new1)) as (new2 & He2 & Hc2 & Hl2 & Hg2 & Ht2).
    assert (Hg1' : all_answered net (requests trace) (requests new1))
      by (apply Hg1; discriminate).
    clear Hg1. rename Hg1' into Hg1.
    rewrite requests_app in Hl2, Hg2, Ht2.
    exists (new1 ++ new2). rewrite He2, Hc2, app_assoc, requests_app.
    split; [reflexivity|]. split; [reflexivity|]. split; [|split].
    + destruct (requests new2) as [|r rs] eqn:E.
      * rewrite app_nil_r. exact Hl1.
      * rewrite removelast_app by discriminate.
        apply all_answered_app. split; [exact Hg1|exact Hl2].
    + intros Hg. apply all_answered_app. split; [exact Hg1|now apply Hg2].
    + intros e He. destruct (Ht2 e He) as (pre & req & Hpre & Hreq).
      exists (requests new1 ++ pre), req.
      rewrite Hpre, !app_assoc. split; [reflexivity|].
      now rewrite <- app_assoc, app_assoc.
  - exists new1. cbn.
    split; [exact He1|]. split; [exact Hc1|]. split; [exact Hl1|].
    split.
    + intros H. apply Hg1. intros e' [= ->]. now destruct (H e').
    + intros e' [= ->]. now apply Ht1.
Qed.

Lemma stops_for_each {A} (xs : list A) (body : A -> Script unit) :
  (forall x, stops_at_failure (body x)) -> stops_at_failure (for_each xs body).
Proof.
  intros Hb. induction xs as [|x xs IH]; [apply stops_fin|].
  cbn [for_each]. apply stops_bind; [apply Hb|intros _; exact IH].
Qed.

(** Reading a response never raises an exception of the client. *)
Ltac own_error :=
  let e := fresh in
  intros e;
  lazymatch goal with
  | |- subscript ?j ?n <> _ =>
      destruct j as [| | | | |ms]; cbn; try discriminate;
      destruct (member n ms); discriminate
  | |- get_or ?j _ _ <> _ => destruct j; discriminate
  | |- first5 ?h ?j <> _ => destruct j, h; discriminate
  | |- iterate ?j <> _ => destruct j; discriminate
  | |- fixed1 ?j <> _ =>
      destruct j as [| |n| | |]; cbn; try discriminate;
      destruct (Z.abs n <? float_limit); discriminate
  end.

Ltac stops_all :=
  repeat lazymatch goal with
  | |- stops_at_failure (mbind _ _) => apply stops_bind; [|intros ?]
  | |- stops_at_failure (print _) => apply stops_print
  | |- stops_at_failure (sleep _) => apply stops_sleep
  | |- stops_at_failure (Fin _) => apply stops_fin
  | |- stops_at_failure (attempt _) => apply stops_attempt; own_error
  | |- stops_at_failure (for_each _ _) => apply stops_for_each; intros ?
  | |- stops_at_failure (method health_check) => apply (stops_method HealthCheck)
  | |- stops_at_failure (method get_metrics) => apply (stops_method GetMetrics)
  | |- stops_at_failure (method list_limiters) => apply (stops_method ListLimiters)
  | |- stops_at_failure (method (check_rate_limit ?k ?c ?r)) =>
      apply (stops_method (CheckRateLimit k c r))
  | |- stops_at_failure (method (apply_penalty ?k ?n)) =>
      apply (stops_method (ApplyPenalty k n))
  | |- stops_at_failure (method (apply_reward ?k ?n)) =>
      apply (stops_method (ApplyReward k n))
  | |- stops_at_failure (method (block_key ?k ?n)) =>
      apply (stops_method (BlockKey k n))
  | |- stops_at_failure (method (unblock_key ?k)) =>
      apply (stops_method (UnblockKey k))
  | |- stops_at_failure (method (get_status ?k)) =>
      apply (stops_method (GetStatus k))
  | |- stops_at_failure (method (reset_limiter ?k)) =>
      apply (stops_method (ResetLimiter k))
  | |- stops_at_failure (method (delete_limiter ?k)) =>
      apply (stops_method (DeleteLimiter k))
  end.

Lemma demo_stops h : stops_at_failure (demo h).
Proof. unfold demo. stops_all. Qed.

End ScriptFacts.

Section ScriptResults.

Import Client Script.

Lemma take_prefix_Forall {A} (P : A -> Prop) n (l1 l2 : list A) :
  l1 `prefix_of` l2 -> Forall P (take n l2) -> Forall P (take n l1).
Proof.
  intros [k ->] H. rewrite Forall_lookup in H. apply Forall_lookup.
  intros i x Hi. apply lookup_take_Some in Hi as [Hi Hn].
  apply (H i). apply lookup_take_Some. split; [|exact Hn].
  now apply lookup_app_l_Some.
Qed.

(** X8.  The requests of the script are fixed in advance.  Whatever the server
    answers, what the script sends is an initial stretch of the same 26
    requests in the same order, and all 26 when it runs to its end; nothing
    in a response changes which request comes next.  The client object is
    never replaced or changed, and no DELETE goes out among the first 23
    requests. *)
Theorem demo_keeps_to_its_calls h fresh net :
  requests (effects (main h fresh net))
    `prefix_of` (request_of (init fresh (Some "http://localhost:8080")) <$> demo_calls) /\
  (outcome (main h fresh net) = Got tt ->
   requests (effects (main h fresh net)) =
   request_of (init fresh (Some "http://localhost:8080")) <$> demo_calls) /\
  length demo_calls = 26%nat /\
  client_after (main h fresh net) = init fresh (Some "http://localhost:8080") /\
  Forall (fun r => verb r <> DELETE)
         (take 23 (requests (effects (main h fresh net)))).
Proof.
  unfold main.
  destruct (demo_respects h net (init fresh (Some "http://localhost:8080")) [])
    as (new & L' & He & Hc & _ & Hr & Hp & Hg).
  rewrite He, Hc. cbn [app]. rewrite Hr.
  split; [|split; [|split; [|split]]].
  - destruct Hp as [k ->]. rewrite fmap_app. now apply prefix_app_r.
  - intros Hgot. now rewrite (Hg tt Hgot).
  - reflexivity.
  - reflexivity.
  - rewrite <- fmap_take. apply Forall_fmap.
    apply (take_prefix_Forall _ 23 L' demo_calls Hp).
    cbv [demo_calls replicate app take]. repeat constructor; discriminate.
Qed.





(** X10.  The script prints "Demo completed successfully!" exactly when every
    step went through: a run that ends in an exception has not printed
    it, a run that reaches its end has. *)
Theorem success_line_iff_completed h fresh net :
  Printed success_line ∈ effects (main h fresh net) <->
  outcome (main h fresh net) = Got tt.
Proof.
  unfold main.
  destruct (demo_announces h net (init fresh (Some "http://localhost:8080")) [])
    as (new & He & Hyes & Hno).
  rewrite He. cbn [app].
  destruct (outcome (exec net _ [] (demo h))) as [[]|e].
  - split; [reflexivity|intros _; apply Hyes; now exists tt].
  - split; [|discriminate]. intros Hin. exfalso.
    specialize (Hno (ex_intro _ e eq_refl)).
    rewrite Forall_forall in Hno. now apply (Hno _ Hin).
Qed.

(** X11.  The script has no error handling: the first request that fails is the
    last one it sends.  Every request before the last got JSON back, and
    the script ends in an exception of the client exactly when its last
    request failed, with that request's exception; so after a failed
    request nothing more is sent, the deletes of the cleanup included. *)
Theorem demo_stops_at_first_failure h fresh net :
  all_answered net [] (removelast (requests (effects (main h fresh net)))) /\
  (forall e,
     outcome (main h fresh net) = Threw (ClientError e) <->
     exists pre req,
       requests (effects (main h fresh net)) = pre ++ [req] /\
       reply_json (net pre req) = Raised e).
Proof.
  unfold main.
  destruct (demo_stops h net (init fresh (Some "http://localhost:8080")) [])
    as (new & He & _ & Hl & Hg & Ht).
  rewrite He. cbn [app requests] in *.
  split; [exact Hl|]. intros e. split; [apply Ht|].
  intros (pre & req & Hreq & Hrep).
  destruct (outcome (exec net _ [] (demo h))) as [a|[e'| | | | |]] eqn:E.
  2:{ destruct (Ht e' eq_refl) as (pre' & req' & Hreq' & Hrep').
      rewrite Hreq in Hreq'. apply app_inj_tail in Hreq' as [-> ->].
      rewrite Hrep in Hrep'. now injection Hrep' as ->. }
  all: exfalso;
    assert (Hall : all_answered net [] (requests new)) by (apply Hg; discriminate);
    rewrite Hreq in Hall; apply all_answered_app in Hall as [_ [[j Hj] _]];
    cbn [app] in Hj; rewrite Hrep in Hj; discriminate Hj.
Qed.

(** X12.  An answer to the first request that is not a dict with a ["status"]
    member ends the script on the spot, an error body under a 4xx or 5xx
    status included: the client hands the body back as a result, the script
    subscripts it, and the [KeyError] or [TypeError] of that subscript is
    the end, with the health request the only one sent. *)
Theorem demo_dies_on_unreadable_health h fresh net code j e :
  net [] (request_of (init fresh (Some "http://localhost:8080")) HealthCheck)
    = Answer (mkResponse code (Some j)) ->
  subscript j "status" = Threw e ->
  outcome (main h fresh net) = Threw e /\
  (e = KeyError \/ e = TypeError) /\
  requests (effects (main h fresh net)) =
    [request_of (init fresh (Some "http://localhost:8080")) HealthCheck] /\
  ~ Printed success_line ∈ effects (main h fresh net).
Proof.
  intros Hnet Hsub.
  assert (Hrun : main h fresh net =
    mkRun ([Printed bar; Printed [Text "Rate Limiter API - Python Client Demo"];
            Printed bar; Printed []; Printed [Text "1. Health Check"];
            Requested (request_of (init fresh (Some "http://localhost:8080")) HealthCheck)])
          (Threw e) (init fresh (Some "http://localhost:8080"))).
  { unfold main, demo, mbind, Script_bind, print, method.
    cbn [Script.bind exec app].
    change health_check with (invoke HealthCheck).
    rewrite perform_invoke. cbn [requests app]. rewrite Hnet.
    cbn [reply_json content Script.bind exec attempt].
    rewrite Hsub. reflexivity. }
  rewrite Hrun. cbn [outcome effects requests].
  split; [reflexivity|]. split; [|split; [reflexivity|]].
  - destruct j as [| | | | |ms]; cbn in Hsub; try (injection Hsub as <-; now right).
    destruct (member "status" ms); [discriminate|injection Hsub as <-; now left].
  - intros Hin. repeat (apply elem_of_cons in Hin as [Hin|Hin]; [vm_compute in Hin; discriminate Hin|]).
    now apply elem_of_nil in Hin.
Qed.

(** The theorem against the server that answers 400 with an error body. *)
Lemma demo_dies_on_unreadable_health_witness :
  rejecting [] (request_of (init (mkSession ∅) (Some "http://localhost:8080")) HealthCheck)
    = Answer (mkResponse 400 (Some (JObj [("error", JStr "invalid argument")]))) /\
  subscript (JObj [("error", JStr "invalid argument")]) "status" = Threw KeyError /\
  outcome (main false (mkSession ∅) rejecting) = Threw KeyError.
Proof.
  assert (H1 : rejecting [] (request_of (init (mkSession ∅) (Some "http://localhost:8080")) HealthCheck)
               = Answer (mkResponse 400 (Some (JObj [("error", JStr "invalid argument")]))))
    by reflexivity.
  assert (H2 : subscript (JObj [("error", JStr "invalid argument")]) "status" = Threw KeyError)
    by reflexivity.
  split; [exact H1|]. split; [exact H2|].
  exact (proj1 (demo_dies_on_unreadable_health false (mkSession ∅) rejecting 400
                  _ KeyError H1 H2)).
Defined.

(** Slicing and iterating a string go by characters, not bytes. *)
Example first5_of_text :
  first5 false (JStr "héllo wörld") = Got (JStr "héllo") /\
  iterate (JStr "hé") = Got [JStr "h"; JStr "é"].
Proof. split; reflexivity. Qed.

(** [:.1f] at the edge of the floats. *)
Example fixed1_overflow :
  fixed1 (JInt (2 ^ 1024)) = Threw OverflowError /\
  fixed1 (JInt (- 2 ^ 1024)) = Threw OverflowError /\
  fixed1 (JInt (float_limit - 1)) = Got (Fixed1 (JInt (float_limit - 1))).
Proof. repeat split. Qed.

(** Against a server that is not there the script ends with the transport's
    exception after its first request. *)
Example demo_against_silence :
  outcome (main false (mkSession ∅) silent) = Threw (ClientError RequestException) /\
  length (requests (effects (main false (mkSession ∅) silent))) = 1%nat.
Proof. vm_compute. split; reflexivity. Qed.

(** Against the obliging server it prints 72 lines and pauses twelve
    times. *)
Example demo_against_obliging :
  outcome (main false (mkSession ∅) obliging) = Got tt /\
  length (List.filter (fun e => match e with Printed _ => true | _ => false end)
                 (effects (main false (mkSession ∅) obliging))) = 72%nat /\
  length (List.filter (fun e => match e with Slept _ => true | _ => false end)
                 (effects (main false (mkSession ∅) obliging))) = 12%nat.
Proof. vm_compute. repeat split. Qed.

End ScriptResults.
